(* ===== verification/_CoqProject ===== *)
-Q . S2P
Prelude.v
Surface.v
Dialogs.v
Canvas.v
Palette.v
App.v
Session.v
Window.v
