(* ===== verification/Prelude.v ===== *)
(** * Taint: a model of the pixel-art editor [src/taint.py] and its proofs

    ** The program
    [src/taint.py] is a pygame program of three parts that share one
    canvas object:
    - the canvas ([class Canvas], a 480x480 [pygame.Surface], and
      [class Block]): 225 blocks of 32x32 pixels, each with a colour, a
      [show_grid] flag, and the methods [paint], [toggle_grid], [clear],
      [update] (redraw the surface from the blocks) and [init_canvas];
    - the palette ([class Palette] with [PickerButton] and [ClearButton]):
      the list [colors], the blocks laid out for them by [init_palette],
      the index [selected], two buttons, and the methods [select],
      [add_color], [color], [draw] and [bind_canvas]; [select] calls the
      colour and confirmation dialogs and, through [self.canvas], the
      canvas's [clear];
    - the module-level event loop: it builds the canvas and the palette,
      binds them, and runs [while run:] frames that handle the queued
      events (window close, Ctrl+Q, Ctrl+S with the file dialog and
      [pygame.image.save], G, left click), paint the canvas while the left
      button is held over it, and redraw.  No exception is caught: an
      [IndexError] or [AttributeError] of the palette, pygame's
      [ValueError] on a colour that is not a byte triple, or the error of
      [image.save] on a file that cannot be written ends the program.

    ** The files
    - [Prelude] (this file): the Python and pygame values the program uses
      ([rgb] tuples, [COLORS], [pygame.Rect] and [collidepoint],
      [range]), the exceptions it can raise ([exn]) and the result type
      [res] with stdpp's monad notation, the two loop shapes of the source
      ([update_first]: a [for] with [break]; [last_match]: an [enumerate]
      loop without [break]), their lemmas, and the tactics [collide_arith],
      [divlia] and [refute_err], and [rgb_valid], the colours pygame
      accepts.
    - [Surface]: pygame surfaces as pixel functions, with [fill],
      [draw.rect] and axis-parallel [draw.line] rasterised; the drawing
      calls of a frame ([DrawCmd]) and what they do to a surface, the
      relation [draw_cmds] (exact for [fill], [draw.rect] and [blit];
      a thick [draw.line] paints some pixels of its box), with the
      per-pixel reading [cmds_pixel].
    - [Dialogs]: the three tkinter dialogs as the type class [Dialogs]
      (the interface between the program and its user), with whether a
      chosen file can be written, the scripted instance [Script] that
      replays fixed answers, and [env_ok]: a user's side that answers
      byte-triple colours and writable file names.
    - [Canvas]: [Block], [Canvas] and its methods, the tiling [cell_rect]
      / [cell_index] and the invariant [canvas_wf].
    - [Palette]: [Palette], its methods and button drawings, the layout in
      closed form ([palette_rect], [layout]) and the invariant
      [palette_wf].
    - [App]: the event loop: [Event], [FrameInput], the state [App],
      [handle_event] (with [SaveError] when [image.save] fails),
      [mouse_paint], [render] and [render_checked] (pygame's [ValueError]
      on a colour that is not a byte triple), [frame], [main_loop], the
      step relation [step] with [reachable], the shape invariant [app_wf]
      and [app_inv], which adds valid colours.
    - [Session]: the [while run:] loop over an unbounded stream of frames
      ([run_session], with fuel, ending [Finished], [OutOfFuel] or
      [Crashed]) and the validity of every colour the program holds or
      hands to pygame ([colours_valid]).
    - [Window]: the window surface of [set_mode] and what a frame's
      drawing calls show on it.
    Every method is a function of the object's record; a method that
    changes state returns the new record; the event loop threads the
    state [App], the state of the user's side of the dialogs and the
    errors ([res]) through each event.  The canvas that [Palette.select]
    clears is passed to it by the loop, which owns the program's only
    canvas; [pcanvas_bound] records whether [bind_canvas] has run.

    ** The theorems
    - Canvas ([Canvas]): [paint] recolours exactly the block under the
      point ([paint_hit]) and nothing outside the canvas
      ([paint_outside]); [update] draws at each pixel the grid line or the
      block's colour ([update_pixel]); [clear] restores the fresh canvas's
      blocks; the initial layout; [toggle_grid] is an involution; and the
      refinement [canvas_refines_picture]: read through [abs] as a
      [Picture.t] (225 colours and a grid flag, the contract of
      [Module Picture]), the methods do what the contract says; and the
      round trip [paint_then_update]: what is painted at a point is what
      the redrawn surface shows there, unless a grid line covers it.
    - Palette ([Palette]): the running-[x]/[y] loop of [init_palette]
      computes the closed-form layout; [add_color] duplicates the block
      list (a bug of the source); a click on entry [j] selects its newest
      copy and makes colour [j] current; the two buttons with their
      dialog answers, cancelled or not; a click left of the palette
      changes nothing; [draw] frames only the selected block; and adding [k] colours grows the block
      list quadratically ([add_colors_blocks_length]), one full layout
      of the current colour list per call ([add_colors_blocks]); and
      the refinement [palette_refines_contract]: read through [pabs] as
      a [PaletteSpec.t] (the colour entries and the current one), a new
      palette is the contract's initial state, [color] its current
      colour, [add_color] its [add], and every click [select] handles one
      of its clicks.
    - Event loop ([App]): every reachable state satisfies [app_wf]; the
      loop never raises while the user's side is [env_ok]; a colour
      that is not a byte triple, typed into the add-colour dialog, makes
      the frame raise [ValueError] ([add_invalid_colour_raises]), and
      Ctrl+S to a file that cannot be written raises
      ([save_unwritable_raises]); Ctrl+S writes the surface drawn at the
      end of the previous frame; a quit event stops the loop only after
      its whole frame; painting happens after the events of the frame,
      with the colour selected by them, and the frame then returns or
      raises [ValueError] exactly as its colours are valid or not
      ([frame_paint]); no click in the window selects an entry from
      index 51 on; the key dispatch
      ([key_dispatch]: G under any modifiers, nothing else without Ctrl);
      and the refinement of the picture contract by the whole program
      ([reachable_refines_picture]: every reachable canvas is a picture
      the contract's edits produce from the blank one, painting only
      with colours of the palette).
    - Sessions ([Session]): while the user's side is [env_ok], the loop
      finishes by the frame after the first quit event, given fuel for
      the frames up to it ([session_terminates]), and a session never
      raises ([session_never_crashes]); every colour of every reachable
      state and of every drawing call is a byte triple
      ([reachable_colours_valid]).
    - The window ([Window]): the canvas square shows exactly the canvas
      surface ([window_shows_canvas]); inside its frame each palette
      cell shows its colour despite the duplicate blocks
      ([window_shows_palette]); the highlight frame shows when the
      selected block is the last at its place
      ([window_highlight_visible]); and right after a colour is added the
      new layout covers it ([highlight_hidden_after_add_color], a bug of
      the source).
    Each theorem with hypotheses has a witness lemma that applies it to a
    concrete state of the program.

    ** Bounds and fuel
    Every loop of the source but one is over a finite list (blocks,
    colours, events, [range]), modelled by structural recursion.  The
    unbounded [while run:] loop is modelled three ways: by [main_loop]
    over a finite list of frames (one element per frame, the loop
    stopping early when [run] is false); by the relation [step] whose
    reachable states the invariants cover; and by [run_session], which
    reads frame [n] from a stream and runs at most [fuel] frames.  Fuel
    [k - n + 1] is enough to finish when frame [k] holds a quit event,
    since each unit of fuel runs exactly one frame and the frame holding
    the quit event clears [run].  Coordinates and colours
    are mathematical integers: pygame stores them in C ints, and every
    value the program computes is below 2^16.  [(idx/3).is_integer()] is
    modelled as [idx mod 3 = 0], exact for palettes of fewer than 2^52
    colours.

    ** Not modelled
    Which file names can be written and which colours the colour
    dialog answers are properties of the user's side ([Dialogs]), not
    of the program.  Window creation, caption and icon ([pygame.init], [image.load],
    [set_icon]) and [pygame.quit] are I/O without effect on the state
    ([set_mode] is modelled as the black window surface);
    [clock.tick(60)] only waits and changes no state, so it is not
    modelled; the PNG encoding of [image.save] is not
    modelled (the saved value is the surface); tkinter's dialogs are the
    [Dialogs] interface; pygame's line rasteriser is not modelled: on
    the window a thick line (the button icons) paints an unspecified
    part of its box, so the window theorems speak of pixels outside
    every line box.

    ** Plan for the development
    Modelled, in this order: canvas, palette, event loop, with the
    dialogs as an interface; sessions over unbounded input; the colour
    type invariant; the key dispatch; the refinement of the picture
    contract by reachable states; the window's pixels; the palette's
    contract; and the exceptions pygame raises on bad colours and
    unwritable files.  What remains of [src/taint.py] is
    the module imports, the base class [Button] (whose [draw] is never
    called, both buttons overriding it) and the window's caption and
    icon, none of which affects the program's state. *)

From stdpp Require Export base list numbers decidable sets.
From Stdlib Require Export ZArith Lia.

Declare Scope taint_scope.
Delimit Scope taint_scope with taint.

(** ** Python values used by the program *)

(** RGB tuples ([rgb]) such as [COLORS.WHITE = (255, 255, 255)] and positions
    [(x, y)] such as [event.pos] are Python tuples of ints. *)
Abbreviation rgb := (Z * Z * Z)%type.
Abbreviation point := (Z * Z)%type.

(** [class COLORS] (taint.py lines 9-14). *)
Module COLORS.
Definition BLACK : rgb := (0, 0, 0)%Z.
Definition WHITE : rgb := (255, 255, 255)%Z.
Definition RED : rgb := (255, 0, 0)%Z.
Definition GREEN : rgb := (0, 255, 0)%Z.
Definition BLUE : rgb := (0, 0, 255)%Z.
End COLORS.

(** ** [pygame.Rect]

    A rectangle [(x, y, w, h)] of C ints.  [collidepoint] is pygame's
    half-open test [x <= px < x + w /\ y <= py < y + h]. *)
Record Rect := mkRect { rx : Z; ry : Z; rw : Z; rh : Z }.

#[export] Instance Rect_eq_dec : EqDecision Rect.
Proof. solve_decision. Defined.

Definition collidepoint (r : Rect) (p : point) : bool :=
  bool_decide (rx r <= p.1 < rx r + rw r)%Z && bool_decide (ry r <= p.2 < ry r + rh r)%Z.

Notation "p ∈ᵣ r" := (collidepoint r p = true) (at level 70) : taint_scope.
Open Scope taint_scope.

(** The derived attributes of [pygame.Rect] read by the button icons. *)
Definition rleft (r : Rect) : Z := rx r.
Definition rtop (r : Rect) : Z := ry r.
Definition rright (r : Rect) : Z := rx r + rw r.
Definition rbottom (r : Rect) : Z := ry r + rh r.
Definition rcenterx (r : Rect) : Z := rx r + rw r / 2.
Definition rcentery (r : Rect) : Z := ry r + rh r / 2.

(** ** Python's [range(start, stop, step)] for a positive [step] *)
Definition py_range (start stop step : Z) : list Z :=
  (λ i, start + step * i)%Z <$> seqZ 0 ((stop - start + step - 1) / step).

(** ** Colours pygame accepts

    [pygame.draw] raises [ValueError: invalid color argument] unless
    each component of the tuple is a byte. *)
Definition rgb_valid (c : rgb) : Prop :=
  let '(r, g, b) := c in (0 <= r <= 255 ∧ 0 <= g <= 255 ∧ 0 <= b <= 255)%Z.

#[export] Instance rgb_valid_dec c : Decision (rgb_valid c).
Proof. destruct c as [[r g] b]. unfold rgb_valid. apply _. Defined.

(** ** Exceptions the program can raise

    [IndexError] from [self.blocks[self.selected]] on an empty palette,
    [AttributeError] from [self.canvas] before [bind_canvas], pygame's
    [ValueError] from a drawing call given a colour that is not a byte
    triple, and the [pygame.error] [pygame.image.save] raises when the
    file cannot be written. *)
Inductive exn :=
  | IndexError       (* self.blocks[self.selected] out of range *)
  | AttributeError   (* self.canvas before bind_canvas *)
  | ValueError       (* pygame.draw / Surface.fill: invalid color argument *)
  | SaveError.       (* pygame.error from pygame.image.save *)

#[export] Instance exn_eq_dec : EqDecision exn.
Proof. solve_decision. Defined.

Inductive res (A : Type) := Ok (a : A) | Err (e : exn).
Arguments Ok {A} a.
Arguments Err {A} e.

#[export] Instance res_ret : MRet res := λ A a, Ok a.
#[export] Instance res_bind : MBind res :=
  λ A B f m, match m with Ok a => f a | Err e => Err e end.
#[export] Instance res_fmap : FMap res :=
  λ A B f m, match m with Ok a => Ok (f a) | Err e => Err e end.

Definition is_ok {A} (r : res A) : bool := match r with Ok _ => true | Err _ => false end.

(** ** Loops of the source as list combinators *)

(** [for x in l: if p(x): x = f(x); break] *)
Fixpoint update_first {A} (p : A → bool) (f : A → A) (l : list A) : list A :=
  match l with
  | [] => []
  | x :: l' => if p x then f x :: l' else x :: update_first p f l'
  end.

(** [for idx, x in enumerate(l, idx): if p(x): sel = idx] (no [break]:
    the last match wins). *)
Fixpoint last_match {A} (p : A → bool) (idx : nat) (l : list A) (sel : nat) : nat :=
  match l with
  | [] => sel
  | x :: l' => last_match p (S idx) l' (if p x then idx else sel)
  end.

(** ** Shared automation *)

Create HintDb taint.

Lemma collidepoint_spec r p :
  collidepoint r p = true ↔
    (rx r <= p.1 < rx r + rw r)%Z ∧ (ry r <= p.2 < ry r + rh r)%Z.
Proof. unfold collidepoint. by rewrite andb_true_iff, !bool_decide_eq_true. Qed.

Lemma collidepoint_false r p :
  collidepoint r p = false ↔
    ¬ ((rx r <= p.1 < rx r + rw r)%Z ∧ (ry r <= p.2 < ry r + rh r)%Z).
Proof. rewrite <-collidepoint_spec. destruct (collidepoint r p); naive_solver. Qed.

(** Turn every [collidepoint] fact of the goal into arithmetic. *)
Ltac collide_arith :=
  repeat match goal with
  | H : collidepoint _ _ = true |- _ => apply collidepoint_spec in H
  | H : collidepoint _ _ = false |- _ => apply collidepoint_false in H
  | |- collidepoint _ _ = true => apply collidepoint_spec
  | |- collidepoint _ _ = false => apply collidepoint_false
  end; simpl in *.

Lemma elem_of_py_range start stop step v :
  (0 < step)%Z →
  v ∈ py_range start stop step ↔ (start <= v < stop)%Z ∧ ((v - start) mod step = 0)%Z.
Proof.
  intros Hs. unfold py_range. rewrite list_elem_of_fmap. setoid_rewrite elem_of_seqZ.
  split.
  - intros (i & -> & Hi1 & Hi2).
    assert (step * i < stop - start)%Z.
    { assert (Hd := Z.div_mod (stop - start + step - 1) step ltac:(lia)).
      pose proof (Z.mod_pos_bound (stop - start + step - 1) step Hs). nia. }
    split; [lia|]. replace (start + step * i - start)%Z with (i * step)%Z by lia.
    apply Z.mod_mul. lia.
  - intros [Hv Hm]. exists ((v - start) / step)%Z.
    assert (Hd := Z.div_mod (v - start) step ltac:(lia)). rewrite Hm in Hd.
    split; [lia|]. split; [apply Z.div_pos; lia|].
    apply Z.div_lt_upper_bound; [lia|].
    assert (Hd2 := Z.div_mod (stop - start + step - 1) step ltac:(lia)).
    pose proof (Z.mod_pos_bound (stop - start + step - 1) step Hs). nia.
Qed.

(** ** Generic lemmas on the loop combinators *)
Section loops.
Context {A : Type} (p : A → bool).

Lemma length_update_first f (l : list A) : length (update_first p f l) = length l.
Proof. induction l as [|x l IH]; simpl; [done|]. destruct (p x); simpl; lia. Qed.

Lemma update_first_miss f (l : list A) :
  (∀ x, x ∈ l → p x = false) → update_first p f l = l.
Proof.
  induction l as [|x l IH]; intros Hl; simpl; [done|].
  rewrite (Hl x) by set_solver. f_equal. apply IH. set_solver.
Qed.

(** The first matching element is the only one updated. *)
Lemma update_first_hit f (l : list A) i x :
  l !! i = Some x → p x = true →
  (∀ j y, (j < i)%nat → l !! j = Some y → p y = false) →
  update_first p f l = <[i := f x]> l.
Proof.
  revert i. induction l as [|y l IH]; intros i Hi Hp Hbefore; [done|].
  destruct i as [|i]; simpl in *.
  - simplify_eq. by rewrite Hp.
  - rewrite (Hbefore 0%nat y) by (done || lia). f_equal.
    apply IH; [done..|]. intros j z Hj Hz. apply (Hbefore (S j)); [lia|done].
Qed.

(** [update_first] changes at most one element. *)
Lemma update_first_cases f (l : list A) :
  update_first p f l = l ∨ ∃ i x, l !! i = Some x ∧ update_first p f l = <[i := f x]> l.
Proof.
  induction l as [|x l IH]; cbn [update_first]; [by left|]. destruct (p x).
  - right. by exists 0%nat, x.
  - destruct IH as [->|(i & y & Hi & ->)]; [by left|]. right. by exists (S i), y.
Qed.

Lemma Forall_update_first (P : A → Prop) f (l : list A) :
  (∀ x, P x → P (f x)) → Forall P l → Forall P (update_first p f l).
Proof.
  intros Hf Hl. induction Hl as [|x l Hx Hl IH]; cbn [update_first]; [done|].
  destruct (p x); constructor; auto.
Qed.

Lemma fmap_update_first {B} (g : A → B) f (l : list A) :
  (∀ x, g (f x) = g x) → g <$> update_first p f l = g <$> l.
Proof.
  intros Hg. induction l as [|x l IH]; [done|]. cbn [update_first].
  destruct (p x); rewrite !fmap_cons; [by rewrite Hg|by rewrite IH].
Qed.

Lemma last_match_miss idx (l : list A) sel :
  (∀ x, x ∈ l → p x = false) → last_match p idx l sel = sel.
Proof.
  revert idx sel. induction l as [|x l IH]; intros idx sel Hl; simpl; [done|].
  rewrite (Hl x) by set_solver. apply IH. set_solver.
Qed.

(** The last matching position is the one selected. *)
Lemma last_match_hit idx (l : list A) sel i x :
  l !! i = Some x → p x = true →
  (∀ j y, (i < j)%nat → l !! j = Some y → p y = false) →
  last_match p idx l sel = (idx + i)%nat.
Proof.
  revert idx sel i. induction l as [|y l IH]; intros idx sel i Hi Hp Hafter; [done|].
  destruct i as [|i]; simpl in *.
  - simplify_eq. rewrite Hp, last_match_miss; [lia|].
    intros z Hz. apply list_elem_of_lookup in Hz as [j Hj].
    apply (Hafter (S j)); [lia|done].
  - rewrite (IH (S idx) _ i); [lia|done..|].
    intros j z Hj Hz. apply (Hafter (S j)); [lia|done].
Qed.

(** The index selected is the old one or a position whose element matches. *)
Lemma last_match_cases idx (l : list A) sel :
  last_match p idx l sel = sel ∨
  ∃ i x, l !! i = Some x ∧ p x = true ∧ last_match p idx l sel = (idx + i)%nat.
Proof.
  revert idx sel. induction l as [|x l IH]; intros idx sel; simpl; [by left|].
  destruct (IH (S idx) (if p x then idx else sel)) as [->|(i & y & Hi & Hy & ->)].
  - destruct (p x) eqn:Hx; [right; exists 0%nat, x; split_and!; done || lia|by left].
  - right. exists (S i), y. split_and!; [done|done|lia].
Qed.

Lemma last_match_range idx (l : list A) sel :
  last_match p idx l sel = sel ∨
  (idx <= last_match p idx l sel < idx + length l)%nat.
Proof.
  revert idx sel. induction l as [|x l IH]; intros idx sel; simpl; [by left|].
  destruct (IH (S idx) (if p x then idx else sel)) as [->|?]; [|lia].
  destruct (p x); [lia|by left].
Qed.

(** [for x in l: if p(x): acc = g(x)] keeps the last match, or [acc]. *)
Lemma fold_override_miss {B} (g : A → B) (l : list A) a0 :
  (∀ x, x ∈ l → p x = false) →
  fold_left (λ a y, if p y then g y else a) l a0 = a0.
Proof.
  revert a0. induction l as [|x l IH]; intros a0 Hl; simpl; [done|].
  rewrite (Hl x) by set_solver. apply IH. set_solver.
Qed.

Lemma fold_override_hit {B} (g : A → B) (l : list A) a0 i x :
  l !! i = Some x → p x = true →
  (∀ j y, (i < j)%nat → l !! j = Some y → p y = false) →
  fold_left (λ a y, if p y then g y else a) l a0 = g x.
Proof.
  revert a0 i. induction l as [|y l IH]; intros a0 i Hi Hp Hafter; [done|].
  destruct i as [|i]; simpl in *.
  - simplify_eq. rewrite Hp, fold_override_miss; [done|].
    intros z Hz. apply list_elem_of_lookup in Hz as [j Hj].
    apply (Hafter (S j)); [lia|done].
  - apply (IH _ i); [done..|]. intros j z Hj Hz. apply (Hafter (S j)); [lia|done].
Qed.

Lemma fold_override_const {B} (c : B) (l : list A) a0 :
  fold_left (λ a y, if p y then c else a) l a0 = if existsb p l then c else a0.
Proof.
  revert a0. induction l as [|x l IH]; intros a0; simpl; [done|].
  rewrite IH. destruct (p x), (existsb p l); done.
Qed.
End loops.

Lemma Exists_concat_imap {A B} (P : B → Prop) (f : nat → A → list B) (l : list A) i x :
  l !! i = Some x → Exists P (f i x) → Exists P (concat (imap f l)).
Proof.
  revert f i. induction l as [|y l IH]; intros f i Hi Hf; [done|]. rewrite imap_cons. cbn [concat].
  apply Exists_app. destruct i as [|i]; simplify_eq/=; [by left|]. right. by eapply (IH (f ∘ S)).
Qed.

Lemma Forall_concat_imap {A B} (P : B → Prop) (f : nat → A → list B) (l : list A) :
  (∀ i x, l !! i = Some x → Forall P (f i x)) → Forall P (concat (imap f l)).
Proof.
  intros Hf. apply Forall_concat, Forall_lookup. intros i ys Hi.
  rewrite list_lookup_imap in Hi. destruct (l !! i) eqn:E; simplify_eq/=. eauto.
Qed.

Lemma Forall_concat_imap_inv {A B} (P : B → Prop) (f : nat → A → list B) (l : list A) i x :
  Forall P (concat (imap f l)) → l !! i = Some x → Forall P (f i x).
Proof.
  intros Hall Hi. apply Forall_concat in Hall. eapply Forall_lookup_1; [exact Hall|].
  by rewrite list_lookup_imap, Hi.
Qed.

(** [lia] after eliminating divisions and remainders by constants. *)
Ltac divlia := Z.div_mod_to_equations; lia.

(** A computation [E : m = Err e] with [m] closed is refuted by evaluating
    only whether [m] succeeds (never its whole result). *)
Ltac refute_err E :=
  match type of E with
  | ?m = Err _ =>
      let H := fresh in
      assert (H : is_ok m = true) by (vm_compute; reflexivity);
      rewrite E in H; discriminate H
  end.
