(* ===== verification/Surface.v ===== *)
(** * pygame surfaces and the drawing calls of taint.py

    The program draws in two places.  The canvas ([class Canvas], a
    [pygame.Surface]) is redrawn by [Canvas.update] with [fill],
    [pygame.draw.rect] (filled) and [pygame.draw.line] (axis-parallel, width
    1); these are rasterised here pixel by pixel, because the canvas surface
    is what [pygame.image.save] writes.  The window ([screen]) is drawn with
    thick diagonal lines for the button icons; it is kept as the list of
    drawing calls made in a frame ([DrawCmd]), and what those calls do
    to the window's pixels is the relation [draw_cmds], exact for
    [fill], [draw.rect] and [blit] and bounded for [draw.line].

    pygame is a library the program calls, so these definitions follow
    pygame's documented semantics: a new surface is black, [fill] and
    [draw.rect] with width 0 paint the part of the rectangle inside the
    surface, and a width-1 line from [(x, y1)] to [(x, y2)] paints both end
    points and everything between them, clipped to the surface. *)

From S2P Require Import Prelude.

Record Surface := mkSurface { sw : Z; sh : Z; pixel : Z → Z → rgb }.

Definition in_bounds (s : Surface) (x y : Z) : bool :=
  bool_decide (0 <= x < sw s)%Z && bool_decide (0 <= y < sh s)%Z.

(** [pygame.Surface((w, h))]: a new surface is black. *)
Definition new_surface (w h : Z) : Surface := mkSurface w h (λ _ _, COLORS.BLACK).

(** Paint colour [c] on the pixels of the surface selected by [q]. *)
Definition override (s : Surface) (q : Z → Z → bool) (c : rgb) : Surface :=
  mkSurface (sw s) (sh s) (λ x y, if in_bounds s x y && q x y then c else pixel s x y).

(** [surface.fill(c)] *)
Definition fill (s : Surface) (c : rgb) : Surface := override s (λ _ _, true) c.

(** [pygame.draw.rect(surface, c, r)] (width 0: filled). *)
Definition fill_rect (s : Surface) (c : rgb) (r : Rect) : Surface :=
  override s (λ x y, collidepoint r (x, y)) c.

(** [pygame.draw.line(surface, c, (x, y1), (x, y2))] with [y1 <= y2]. *)
Definition vline (s : Surface) (c : rgb) (x y1 y2 : Z) : Surface :=
  override s (λ px py, bool_decide (px = x) && bool_decide (y1 <= py <= y2)%Z) c.

(** [pygame.draw.line(surface, c, (x1, y), (x2, y))] with [x1 <= x2]. *)
Definition hline (s : Surface) (c : rgb) (y x1 x2 : Z) : Surface :=
  override s (λ px py, bool_decide (py = y) && bool_decide (x1 <= px <= x2)%Z) c.

(** The drawing calls made on the window in one frame. *)
Inductive DrawCmd :=
  | Fill (c : rgb)                               (* screen.fill(c) *)
  | DrawRect (c : rgb) (r : Rect) (width : Z)    (* pygame.draw.rect *)
  | DrawLine (c : rgb) (p1 p2 : point) (width : Z) (* pygame.draw.line *)
  | Blit (src : Surface) (dest : point).           (* screen.blit *)

(** The colour of a drawing call is one pygame accepts ([blit] takes
    none). *)
Definition cmd_valid (cmd : DrawCmd) : Prop :=
  match cmd with
  | Fill c | DrawRect c _ _ | DrawLine c _ _ _ => rgb_valid c
  | Blit _ _ => True
  end.

#[export] Instance cmd_valid_dec cmd : Decision (cmd_valid cmd).
Proof. destruct cmd; apply _. Defined.

(** ** Drawing on the window

    [pygame.draw.rect] with a positive width paints a border of that
    many pixels inside the rectangle, and with a negative width nothing;
    [blit] copies the source onto the destination, clipped to both.
    pygame's line rasteriser (Bresenham with parallel offsets for the
    width) is not modelled: a line call paints, in its colour, some of
    the pixels of its box ([line_box], the bounding box of its end points
    grown by its width) and changes nothing else.  So one drawing call
    is a relation, and the pixel a sequence of calls leaves is known
    exactly wherever no line box intervenes ([cmds_pixel]). *)

(** [pygame.draw.rect(surface, c, r, w)] with [w > 0] *)
Definition border (s : Surface) (c : rgb) (r : Rect) (w : Z) : Surface :=
  override s (λ x y, collidepoint r (x, y) &&
    (bool_decide (x < rx r + w) || bool_decide (rx r + rw r - w <= x) ||
     bool_decide (y < ry r + w) || bool_decide (ry r + rh r - w <= y)))%Z c.

(** [surface.blit(src, dest)] *)
Definition blit (s src : Surface) (dest : point) : Surface :=
  mkSurface (sw s) (sh s) (λ x y,
    if in_bounds s x y && in_bounds src (x - dest.1) (y - dest.2)
    then pixel src (x - dest.1) (y - dest.2) else pixel s x y)%Z.

Definition line_box (p1 p2 : point) (w x y : Z) : bool :=
  bool_decide (Z.min p1.1 p2.1 - w <= x <= Z.max p1.1 p2.1 + w)%Z &&
  bool_decide (Z.min p1.2 p2.2 - w <= y <= Z.max p1.2 p2.2 + w)%Z.

Inductive draw_cmd : Surface → DrawCmd → Surface → Prop :=
  | draw_fill s c : draw_cmd s (Fill c) (fill s c)
  | draw_rect_filled s c r : draw_cmd s (DrawRect c r 0) (fill_rect s c r)
  | draw_rect_border s c r w : (0 < w)%Z → draw_cmd s (DrawRect c r w) (border s c r w)
  | draw_rect_none s c r w : (w < 0)%Z → draw_cmd s (DrawRect c r w) s
  | draw_line s c p1 p2 w s' :
      sw s' = sw s → sh s' = sh s →
      (∀ x y, pixel s' x y = pixel s x y ∨
              (in_bounds s x y && line_box p1 p2 w x y = true ∧ pixel s' x y = c)) →
      draw_cmd s (DrawLine c p1 p2 w) s'
  | draw_blit s src d : draw_cmd s (Blit src d) (blit s src d).

Inductive draw_cmds : Surface → list DrawCmd → Surface → Prop :=
  | draw_nil s : draw_cmds s [] s
  | draw_cons s cmd cmds s1 s2 : draw_cmd s cmd s1 → draw_cmds s1 cmds s2 → draw_cmds s (cmd :: cmds) s2.

(** What one call does at one pixel of the surface. *)
Inductive effect := Keep | Paint (c : rgb) | Unknown.

Definition cmd_effect (cmd : DrawCmd) (x y : Z) : effect :=
  match cmd with
  | Fill c => Paint c
  | DrawRect c r w =>
      if bool_decide (w = 0)%Z then (if collidepoint r (x, y) then Paint c else Keep)
      else if bool_decide (0 < w)%Z then
        (if collidepoint r (x, y) &&
            (bool_decide (x < rx r + w) || bool_decide (rx r + rw r - w <= x) ||
             bool_decide (y < ry r + w) || bool_decide (ry r + rh r - w <= y))%Z
         then Paint c else Keep)
      else Keep
  | DrawLine c p1 p2 w => if line_box p1 p2 w x y then Unknown else Keep
  | Blit src d =>
      if in_bounds src (x - d.1) (y - d.2) then Paint (pixel src (x - d.1) (y - d.2)) else Keep
  end%Z.

Definition apply_effect (acc : option rgb) (e : effect) : option rgb :=
  match e with Keep => acc | Paint c => Some c | Unknown => None end.

(** The pixel a sequence of calls leaves at [(x, y)], starting from
    [acc]; [None] when a line may have touched it last. *)
Definition cmds_pixel (cmds : list DrawCmd) (x y : Z) (acc : option rgb) : option rgb :=
  fold_left (λ acc cmd, apply_effect acc (cmd_effect cmd x y)) cmds acc.

(** [o] is [None] or the pixel [c]. *)
Definition pixel_agrees (o : option rgb) (c : rgb) : Prop :=
  match o with Some c' => c = c' | None => True end.

(** ** Lemmas *)

Lemma override_dims s q c : sw (override s q c) = sw s ∧ sh (override s q c) = sh s.
Proof. done. Qed.

Lemma in_bounds_override s q c x y : in_bounds (override s q c) x y = in_bounds s x y.
Proof. done. Qed.

Lemma in_bounds_spec s x y :
  in_bounds s x y = true ↔ (0 <= x < sw s)%Z ∧ (0 <= y < sh s)%Z.
Proof. unfold in_bounds. by rewrite andb_true_iff, !bool_decide_eq_true. Qed.

Section folds.
Context {A : Type} (f : Surface → A → Surface) (w h : Z).
Hypothesis f_dims : ∀ s a, sw s = w → sh s = h → sw (f s a) = w ∧ sh (f s a) = h.

Lemma fold_dims l s : sw s = w → sh s = h →
  sw (fold_left f l s) = w ∧ sh (fold_left f l s) = h.
Proof.
  revert s. induction l as [|a l IH]; intros s Hw Hh; simpl; [done|].
  destruct (f_dims s a Hw Hh). by apply IH.
Qed.

(** A loop of drawing calls, read at one pixel, is a loop of [if]s. *)
Lemma fold_pixel (q : A → bool) (col : A → rgb) x y l s :
  (∀ s a, sw s = w → sh s = h → pixel (f s a) x y = if q a then col a else pixel s x y) →
  sw s = w → sh s = h →
  pixel (fold_left f l s) x y = fold_left (λ acc a, if q a then col a else acc) l (pixel s x y).
Proof.
  intros Hf. revert s. induction l as [|a l IH]; intros s Hw Hh; simpl; [done|].
  destruct (f_dims s a Hw Hh). rewrite IH by done. by rewrite Hf.
Qed.
End folds.

(** ** Lemmas on the window's drawing calls *)

Lemma draw_cmd_dims s cmd s' : draw_cmd s cmd s' → sw s' = sw s ∧ sh s' = sh s.
Proof. by destruct 1. Qed.

Lemma draw_cmds_dims s cmds s' : draw_cmds s cmds s' → sw s' = sw s ∧ sh s' = sh s.
Proof.
  induction 1 as [|? ? ? ? ? H1 _ [IH1 IH2]]; [done|].
  destruct (draw_cmd_dims _ _ _ H1). split; congruence.
Qed.

(** Every sequence of calls can be drawn (a line may paint nothing). *)
Lemma draw_cmds_exists s cmds : ∃ s', draw_cmds s cmds s'.
Proof.
  revert s. induction cmds as [|cmd cmds IH]; intros s; [eexists; constructor|].
  assert (∃ s1, draw_cmd s cmd s1) as [s1 H1].
  { destruct cmd as [c|c r w|c p1 p2 w|src d].
    - eexists. apply draw_fill.
    - destruct (Z.lt_trichotomy w 0) as [?|[->|?]];
        [exists s; by apply draw_rect_none | eexists; apply draw_rect_filled | eexists; by apply draw_rect_border].
    - exists s. apply draw_line; auto.
    - eexists. apply draw_blit. }
  destruct (IH s1) as [s2 H2]. exists s2. by econstructor.
Qed.

Lemma draw_cmd_pixel s cmd s' x y acc :
  draw_cmd s cmd s' → in_bounds s x y = true → pixel_agrees acc (pixel s x y) →
  pixel_agrees (apply_effect acc (cmd_effect cmd x y)) (pixel s' x y).
Proof.
  intros Hd Hb Hacc. destruct Hd as [s c|s c r|s c r w Hw|s c r w Hw|s c p1 p2 w s' _ _ Hpx|s src d];
    cbn [cmd_effect fill fill_rect border override blit pixel]; rewrite ?Hb; cbn [andb].
  - done.
  - by destruct (collidepoint r (x, y)).
  - rewrite bool_decide_false, bool_decide_true by lia. by case_match.
  - by rewrite !bool_decide_false by lia.
  - destruct (line_box p1 p2 w x y) eqn:E; [done|].
    destruct (Hpx x y) as [->|[Hbox _]]; [done|]. by rewrite E, andb_false_r in Hbox.
  - by destruct (in_bounds src _ _).
Qed.

(** The pixel left by a sequence of calls agrees with [cmds_pixel]. *)
Lemma draw_cmds_pixel s cmds s' x y acc :
  draw_cmds s cmds s' → in_bounds s x y = true → pixel_agrees acc (pixel s x y) →
  pixel_agrees (cmds_pixel cmds x y acc) (pixel s' x y).
Proof.
  intros Hd. revert acc. induction Hd as [|s cmd cmds s1 s2 H1 _ IH]; intros acc Hb Hacc; [done|].
  apply IH; [|by eapply draw_cmd_pixel].
  destruct (draw_cmd_dims _ _ _ H1) as [Hw Hh]. unfold in_bounds in *. by rewrite Hw, Hh.
Qed.

Lemma cmds_pixel_app l1 l2 x y acc :
  cmds_pixel (l1 ++ l2) x y acc = cmds_pixel l2 x y (cmds_pixel l1 x y acc).
Proof. apply fold_left_app. Qed.

Lemma cmds_pixel_keep l x y acc :
  Forall (λ cmd, cmd_effect cmd x y = Keep) l → cmds_pixel l x y acc = acc.
Proof.
  intros Hl. revert acc. induction Hl as [|cmd l Hc _ IH]; intros acc; [done|].
  unfold cmds_pixel in *. cbn [fold_left]. by rewrite Hc.
Qed.

Lemma cmds_pixel_stays l x y c :
  Forall (λ cmd, cmd_effect cmd x y = Keep ∨ cmd_effect cmd x y = Paint c) l →
  cmds_pixel l x y (Some c) = Some c.
Proof.
  induction 1 as [|cmd l Hc _ IH]; [done|]. unfold cmds_pixel in *. cbn [fold_left].
  by destruct Hc as [-> | ->].
Qed.

(** Calls that keep the pixel or paint it [c], one of them painting. *)
Lemma cmds_pixel_paint l x y c acc :
  Forall (λ cmd, cmd_effect cmd x y = Keep ∨ cmd_effect cmd x y = Paint c) l →
  Exists (λ cmd, cmd_effect cmd x y = Paint c) l →
  cmds_pixel l x y acc = Some c.
Proof.
  intros Hl Hex. revert acc. induction Hl as [|cmd l Hc Hl IH]; intros acc; [by inversion Hex|].
  apply Exists_cons in Hex as [Hp|Hex].
  - unfold cmds_pixel. cbn [fold_left]. rewrite Hp. by apply cmds_pixel_stays.
  - unfold cmds_pixel in *. cbn [fold_left]. by apply IH.
Qed.

(** A rectangle call misses the pixels outside its rectangle. *)
Lemma rect_miss_keep c r w x y :
  collidepoint r (x, y) = false → cmd_effect (DrawRect c r w) x y = Keep.
Proof. intros Hr. cbn [cmd_effect]. rewrite Hr. by repeat case_bool_decide. Qed.

(** The top-left pixel of a non-empty rectangle is painted by a filled
    rectangle and by a one-pixel frame. *)
Lemma rect_corner_paint c r w :
  (0 < rw r)%Z → (0 < rh r)%Z → (0 <= w <= 1)%Z → cmd_effect (DrawRect c r w) (rx r) (ry r) = Paint c.
Proof.
  intros Hw Hh Hw1. cbn [cmd_effect]. unfold collidepoint. cbn [fst snd].
  repeat (case_bool_decide; cbn [andb orb]; try lia); done.
Qed.
