(* ===== verification/Dialogs.v ===== *)
(** * The modal dialogs [prompt_file], [prompt_color], [prompt_clear]

    taint.py opens three tkinter dialogs (lines 17-38).  They block until
    the user answers and return a value the program only tests for
    truth: a file name ([''] when cancelled), an RGB tuple or [None], and
    the boolean of [askokcancel].  They are an interface between the
    program and its user, stated as the class [Dialogs]: a dialog takes
    the state [D] of the user's side and returns the answer with the next
    state.  Every theorem about the palette and the event loop holds for
    every instance; [Script] is the instance that replays a fixed list of
    answers (and cancels once they run out), used to run concrete
    scenarios.  The same side answers whether a file name can be written
    ([file_writable]): [pygame.image.save] raises when it cannot, which
    depends on the file system, not on the program. *)

From S2P Require Import Prelude.
From stdpp Require Export strings.

Class Dialogs (D : Type) := {
  prompt_file : D → string * D;
  prompt_color : D → option rgb * D;
  prompt_clear : D → bool * D;
  file_writable : D → string → bool;
}.

(** The user's answers, replayed in order. *)
Record Script := mkScript {
  file_answers : list string;
  color_answers : list (option rgb);
  clear_answers : list bool;
  read_only : list string;
}.

#[export] Instance Script_dialogs : Dialogs Script := {
  prompt_file d :=
    match file_answers d with
    | [] => (""%string, d)
    | f :: fs => (f, mkScript fs (color_answers d) (clear_answers d) (read_only d))
    end;
  prompt_color d :=
    match color_answers d with
    | [] => (None, d)
    | c :: cs => (c, mkScript (file_answers d) cs (clear_answers d) (read_only d))
    end;
  prompt_clear d :=
    match clear_answers d with
    | [] => (false, d)
    | b :: bs => (b, mkScript (file_answers d) (color_answers d) bs (read_only d))
    end;
  file_writable d fn := bool_decide (fn ∉ read_only d);
}.

Definition no_answers : Script := mkScript [] [] [] [].

(** A property [P] of the user's side that every dialog keeps, and under
    which the colour dialog only answers valid colours. *)
Definition dialog_inv `{Dialogs D} (P : D → Prop) : Prop :=
  ∀ d, P d →
    (∀ f d', prompt_file d = (f, d') → P d') ∧
    (∀ oc d', prompt_color d = (oc, d') → P d' ∧ ∀ c, oc = Some c → rgb_valid c) ∧
    (∀ b d', prompt_clear d = (b, d') → P d').

(** The environment of a run that cannot crash: [P] is a [dialog_inv]
    and every file name the user chooses (an empty name is a cancelled
    dialog) can be written. *)
Definition env_ok `{Dialogs D} (P : D → Prop) : Prop :=
  dialog_inv P ∧
  ∀ d f d', P d → prompt_file d = (f, d') → f ≠ ""%string → file_writable d' f = true.

(** A script whose colour answers are all valid. *)
Definition script_colors_valid (s : Script) : Prop :=
  Forall (from_option rgb_valid True) (color_answers s).

(** A script whose colour answers are valid and whose file answers are
    not read-only. *)
Definition script_ok (s : Script) : Prop :=
  script_colors_valid s ∧ Forall (λ f, f ∉ read_only s) (file_answers s).

Lemma script_dialog_inv : dialog_inv script_colors_valid.
Proof.
  intros [fs cs bs ro] Hcs. unfold script_colors_valid in *; cbn in *.
  split_and!; intros x d' E.
  - destruct fs; simplify_eq/=; done.
  - destruct cs as [|oc cs]; simplify_eq/=; [by split|].
    apply Forall_cons in Hcs as [Hoc Hcs]. split; [done|]. by intros c ->.
  - destruct bs; simplify_eq/=; done.
Qed.

Lemma script_env_ok : env_ok script_ok.
Proof.
  split.
  - intros d [Hc Hf]. destruct (script_dialog_inv d Hc) as (H1 & H2 & H3).
    destruct d as [fs cs bs ro]. unfold script_ok in *; cbn in *. split_and!.
    + intros f d' E. split; [by eapply H1|]. destruct fs; simplify_eq/=; [done|].
      by apply Forall_cons in Hf as [_ ?].
    + intros oc d' E. destruct (H2 _ _ E) as [? ?]. split; [|done]. split; [done|].
      destruct cs; simplify_eq/=; done.
    + intros b d' E. split; [by eapply H3|]. destruct bs; simplify_eq/=; done.
  - intros [fs cs bs ro] f d' [_ Hf] E Hne. cbn in *.
    destruct fs as [|f' fs]; simplify_eq/=; try done.
    apply Forall_cons in Hf as [? _]. by apply bool_decide_eq_true.
Qed.
