(* ===== verification/Canvas.v ===== *)
(** * The canvas: [class Block] and [class Canvas] of taint.py

    A [Canvas] is a 480x480 [pygame.Surface] together with its list of
    [Block]s (one 32x32 rectangle and one colour per grid cell, created
    column by column by [init_canvas]) and the [show_grid] flag (an int,
    0 or 1).  [paint], [toggle_grid], [clear] and [update] are the methods
    of the class; [update] redraws the surface from the blocks.

    The theorems: the layout of the blocks is the fixed tiling [cell_rect],
    and every method keeps it ([canvas_wf]); a point of the canvas hits
    exactly the block [cell_index]; [paint] recolours that block and no
    other, and does nothing outside the canvas; [clear] whitens every
    block; [toggle_grid] is an involution; [update] draws, at each pixel,
    black on a grid line when the grid is shown and the colour of the
    block under the pixel otherwise; and, through [abs], the methods
    implement the abstract contract [Picture] (a picture of 225 colours
    and a grid flag). *)

From stdpp Require Import relations.
From S2P Require Import Prelude Surface.

Local Open Scope Z_scope.

(** [SIZE = 32] and [N = 15] (taint.py lines 42-43). *)
Definition SIZE : Z := 32.
Definition N : Z := 15.

(** [class Block(pygame.Rect)] with its [color] attribute. *)
Record Block := mkBlock { brect : Rect; bcolor : rgb }.

#[export] Instance Block_eq_dec : EqDecision Block.
Proof. solve_decision. Defined.

(** [Block(x, y, w, h, color=c)] *)
Definition Block_ (x y w h : Z) (c : rgb) : Block := mkBlock (mkRect x y w h) c.

Record Canvas := mkCanvas { surf : Surface; blocks : list Block; show_grid : Z }.

Definition get_width (cv : Canvas) : Z := sw (surf cv).
Definition get_height (cv : Canvas) : Z := sh (surf cv).

(** [self.get_rect()] *)
Definition get_rect (cv : Canvas) : Rect := mkRect 0 0 (get_width cv) (get_height cv).

(** [Canvas.paint]: recolour the first block containing [pos]. *)
Definition paint (cv : Canvas) (pos : point) (c : rgb) : Canvas :=
  mkCanvas (surf cv)
    (update_first (λ b, collidepoint (brect b) pos) (λ b, mkBlock (brect b) c) (blocks cv))
    (show_grid cv).

(** [Canvas.toggle_grid] *)
Definition toggle_grid (cv : Canvas) : Canvas :=
  mkCanvas (surf cv) (blocks cv) (1 - show_grid cv).

(** [Canvas.init_canvas]: blocks appended column by column. *)
Definition init_canvas (cv : Canvas) : Canvas :=
  mkCanvas (surf cv)
    (blocks cv ++
       (x ← py_range 0 (get_width cv) SIZE;
        (λ y, Block_ x y SIZE SIZE COLORS.WHITE) <$> py_range 0 (get_height cv) SIZE))
    (show_grid cv).

(** [Canvas.draw_rects] *)
Definition draw_rects (s : Surface) (bs : list Block) : Surface :=
  fold_left (λ s b, fill_rect s (bcolor b) (brect b)) bs s.

(** [Canvas.draw_grid]: for each [v], a vertical then a horizontal line. *)
Definition draw_grid (s : Surface) : Surface :=
  fold_left (λ s v, hline (vline s COLORS.BLACK v 0 (sh s)) COLORS.BLACK v 0 (sw s))
    (py_range 0 (sw s) SIZE) s.

(** [Canvas.update] *)
Definition update (cv : Canvas) : Canvas :=
  let s := draw_rects (fill (surf cv) COLORS.BLACK) (blocks cv) in
  mkCanvas (if bool_decide (show_grid cv ≠ 0) then draw_grid s else s)
    (blocks cv) (show_grid cv).

(** [Canvas.clear] *)
Definition clear (cv : Canvas) : Canvas :=
  mkCanvas (surf cv) ((λ b, mkBlock (brect b) COLORS.WHITE) <$> blocks cv) (show_grid cv).

(** [Canvas.__init__] *)
Definition new_canvas : Canvas :=
  update (init_canvas (mkCanvas (new_surface (N * SIZE) (N * SIZE)) [] 0)).

(** ** The tiling *)

(** Block [k] is cell [(k / N, k mod N)]: column-major order. *)
Definition cell_rect (k : nat) : Rect :=
  mkRect (SIZE * (Z.of_nat k / N)) (SIZE * (Z.of_nat k mod N)) SIZE SIZE.

Definition cell_index (p : point) : nat := Z.to_nat (p.1 / SIZE * N + p.2 / SIZE).

Definition in_canvas (p : point) : Prop := (0 <= p.1 < N * SIZE ∧ 0 <= p.2 < N * SIZE)%Z.

#[export] Instance in_canvas_dec p : Decision (in_canvas p).
Proof. unfold in_canvas. apply _. Defined.

(** The canvas invariant: a 480x480 surface, the blocks tiling it in
    column-major order, and [show_grid] a boolean int. *)
Definition canvas_wf (cv : Canvas) : Prop :=
  get_width cv = N * SIZE ∧ get_height cv = N * SIZE ∧
  brect <$> blocks cv = cell_rect <$> seq 0 (Z.to_nat (N * N)) ∧
  (show_grid cv = 0 ∨ show_grid cv = 1).

(** ** The contract of the canvas

    What the rest of the program relies on: the canvas is a picture of
    [N * N] colours, one per cell, and a grid flag.  [abs] reads the
    picture of a canvas. *)
Module Picture.
Record t := mk { cells : list rgb; grid : bool }.

Definition blank : t := mk (replicate (Z.to_nat (N * N)) COLORS.WHITE) false.

Definition recolour (pic : t) (p : point) (c : rgb) : t :=
  if decide (in_canvas p) then mk (<[cell_index p := c]> (cells pic)) (grid pic) else pic.

Definition whiten (pic : t) : t := mk (replicate (Z.to_nat (N * N)) COLORS.WHITE) (grid pic).

Definition toggle (pic : t) : t := mk (cells pic) (negb (grid pic)).

(** The edits a user can make to a picture, painting with colours [cs]. *)
Inductive edit (cs : list rgb) : t → t → Prop :=
  | edit_recolour pic p c : c ∈ cs → edit cs pic (recolour pic p c)
  | edit_whiten pic : edit cs pic (whiten pic)
  | edit_toggle pic : edit cs pic (toggle pic).
End Picture.

Definition abs (cv : Canvas) : Picture.t :=
  Picture.mk (bcolor <$> blocks cv) (bool_decide (show_grid cv ≠ 0)).

(** ** Lemmas on the tiling *)

Create HintDb canvas.

Lemma cell_hit (k : nat) p :
  (k < Z.to_nat (N * N))%nat →
  collidepoint (cell_rect k) p = true ↔ in_canvas p ∧ k = cell_index p.
Proof.
  intros Hk. unfold cell_rect, cell_index, in_canvas, SIZE, N in *.
  rewrite collidepoint_spec. destruct p as [x y]; simpl.
  split; [intros H | intros [H ->]]; Z.div_mod_to_equations; lia.
Qed.

(** Round trip between a cell and its top-left corner. *)
Lemma cell_index_corner (k : nat) :
  (k < Z.to_nat (N * N))%nat →
  in_canvas (rx (cell_rect k), ry (cell_rect k)) ∧ cell_index (rx (cell_rect k), ry (cell_rect k)) = k.
Proof.
  intros Hk. destruct (proj1 (cell_hit k (rx (cell_rect k), ry (cell_rect k)) Hk)) as [? <-]; [|done].
  rewrite collidepoint_spec. unfold cell_rect, SIZE. simpl. lia.
Qed.

Lemma cell_index_lt p : in_canvas p → (cell_index p < Z.to_nat (N * N))%nat.
Proof.
  unfold in_canvas, cell_index, SIZE, N. destruct p as [x y]; simpl.
  intros. Z.div_mod_to_equations. lia.
Qed.

Lemma canvas_wf_length cv : canvas_wf cv → length (blocks cv) = Z.to_nat (N * N).
Proof.
  intros (_ & _ & Hr & _). apply (f_equal length) in Hr.
  by rewrite !length_fmap, length_seq in Hr.
Qed.

Lemma canvas_wf_lookup cv k b :
  canvas_wf cv → blocks cv !! k = Some b →
  brect b = cell_rect k ∧ (k < Z.to_nat (N * N))%nat.
Proof.
  intros (_ & _ & Hr & _) Hk.
  assert (Hl : (brect <$> blocks cv) !! k = (cell_rect <$> seq 0 (Z.to_nat (N * N))) !! k)
    by (by rewrite Hr).
  rewrite !list_lookup_fmap, Hk in Hl.
  destruct (seq 0 _ !! k) eqn:E; simplify_eq.
  apply lookup_seq in E as [-> ?]. split; [done|lia].
Qed.

(** A block of a well-formed canvas contains [p] iff it is block
    [cell_index p] and [p] lies on the canvas. *)
Lemma canvas_block_hit cv k b p :
  canvas_wf cv → blocks cv !! k = Some b →
  collidepoint (brect b) p = true ↔ in_canvas p ∧ k = cell_index p.
Proof.
  intros Hwf Hk. destruct (canvas_wf_lookup cv k b Hwf Hk) as [-> Hlt].
  by apply cell_hit.
Qed.

Lemma canvas_block_lookup cv p :
  canvas_wf cv → in_canvas p →
  ∃ b, blocks cv !! cell_index p = Some b ∧ brect b = cell_rect (cell_index p).
Proof.
  intros Hwf Hp.
  destruct (lookup_lt_is_Some_2 (blocks cv) (cell_index p)) as [b Hb].
  { rewrite canvas_wf_length by done. by apply cell_index_lt. }
  exists b. split; [done|]. by eapply canvas_wf_lookup.
Qed.

Lemma canvas_block_miss cv p :
  canvas_wf cv → ¬ in_canvas p →
  ∀ b, b ∈ blocks cv → collidepoint (brect b) p = false.
Proof.
  intros Hwf Hp b Hb. apply list_elem_of_lookup in Hb as [k Hk].
  apply not_true_iff_false. rewrite (canvas_block_hit cv k b p Hwf Hk). tauto.
Qed.

#[export] Hint Resolve canvas_wf_length cell_index_lt : canvas.

(** ** Dimensions and the drawing loops of [update] *)

Lemma draw_rects_dims s bs : sw (draw_rects s bs) = sw s ∧ sh (draw_rects s bs) = sh s.
Proof. by apply (fold_dims _ (sw s) (sh s)). Qed.

Lemma draw_grid_dims s : sw (draw_grid s) = sw s ∧ sh (draw_grid s) = sh s.
Proof. by apply (fold_dims _ (sw s) (sh s)). Qed.

Lemma update_dims cv : get_width (update cv) = get_width cv ∧ get_height (update cv) = get_height cv.
Proof.
  unfold update, get_width, get_height. cbn [surf].
  case_bool_decide;
    repeat first [rewrite (proj1 (draw_grid_dims _)) | rewrite (proj2 (draw_grid_dims _)) |
                  rewrite (proj1 (draw_rects_dims _ _)) | rewrite (proj2 (draw_rects_dims _ _))];
    done.
Qed.

(** [draw_rects] at a pixel covered by exactly one block paints that
    block's colour. *)
Lemma draw_rects_pixel cv s x y b :
  canvas_wf cv → in_canvas (x, y) → in_bounds s x y = true →
  blocks cv !! cell_index (x, y) = Some b →
  pixel (draw_rects s (blocks cv)) x y = bcolor b.
Proof.
  intros Hwf Hp Hin Hb. unfold draw_rects.
  rewrite (fold_pixel (λ s b, fill_rect s (bcolor b) (brect b)) (sw s) (sh s)
             ltac:(by intros ? ? <- <-) (λ b, collidepoint (brect b) (x, y)) bcolor); [| | done..].
  2: { intros s' b' Hw Hh. simpl. unfold in_bounds in *. by rewrite Hw, Hh, Hin. }
  apply (fold_override_hit _ _ _ _ (cell_index (x, y)) b Hb).
  - by apply (canvas_block_hit cv _ b _ Hwf Hb).
  - intros j b' Hj Hb'. apply not_true_iff_false.
    rewrite (canvas_block_hit cv j b' _ Hwf Hb'). lia.
Qed.

(** [draw_grid] on the 480x480 canvas blackens exactly the pixels of
    rows and columns that are multiples of [SIZE]. *)
Lemma draw_grid_pixel s x y :
  sw s = N * SIZE → sh s = N * SIZE → in_canvas (x, y) →
  pixel (draw_grid s) x y =
    if bool_decide (x mod SIZE = 0) || bool_decide (y mod SIZE = 0) then COLORS.BLACK
    else pixel s x y.
Proof.
  intros Hw Hh Hp. unfold draw_grid, in_canvas in *. simpl in Hp.
  rewrite (fold_pixel (λ s v, hline (vline s COLORS.BLACK v 0 (sh s)) COLORS.BLACK v 0 (sw s))
             (sw s) (sh s) ltac:(by intros ? ? <- <-) (λ v, bool_decide (x = v) || bool_decide (y = v)) (λ _, COLORS.BLACK));
    [| | done..].
  2: { intros s' v Hw' Hh'. simpl. unfold in_bounds. rewrite Hw', Hh', Hw, Hh.
       repeat case_bool_decide; simpl in *; done || lia. }
  rewrite fold_override_const.
  match goal with |- (if ?b1 then _ else _) = (if ?b2 then _ else _) =>
    replace b1 with b2; [done|symmetry] end.
  apply eq_iff_eq_true. rewrite existsb_exists. split.
  - intros (v & Hv & Hxy). rewrite <-list_elem_of_In, Hw, elem_of_py_range in Hv by done. unfold SIZE in *.
    repeat case_bool_decide; simpl in *; try done; subst; divlia.
  - rewrite Hw. intros [Hx|Hy]%orb_true_iff; apply bool_decide_eq_true in Hx || apply bool_decide_eq_true in Hy;
      [exists x | exists y];
      (rewrite <-list_elem_of_In, elem_of_py_range by (unfold SIZE; lia));
      rewrite Z.sub_0_r, orb_true_iff, !bool_decide_eq_true; lia.
Qed.

(** ** Well-formedness is kept by every method *)

Lemma paint_wf cv p c : canvas_wf cv → canvas_wf (paint cv p c).
Proof.
  intros (Hw & Hh & Hr & Hg). split_and!; try done. unfold paint; cbn [blocks].
  rewrite <-Hr. by apply fmap_update_first.
Qed.

Lemma clear_wf cv : canvas_wf cv → canvas_wf (clear cv).
Proof.
  intros (Hw & Hh & Hr & Hg). split_and!; try done. unfold clear; cbn [blocks].
  rewrite <-Hr, <-list_fmap_compose. done.
Qed.

Lemma toggle_grid_wf cv : canvas_wf cv → canvas_wf (toggle_grid cv).
Proof. intros (Hw & Hh & Hr & Hg). split_and!; try done. simpl. lia. Qed.

Lemma update_wf cv : canvas_wf cv → canvas_wf (update cv).
Proof.
  intros (Hw & Hh & Hr & Hg). destruct (update_dims cv) as [Hw' Hh'].
  split_and!; [congruence | congruence | exact Hr | exact Hg].
Qed.

Lemma new_canvas_wf : canvas_wf new_canvas.
Proof. split_and!; [done | done | vm_compute; reflexivity | by left]. Qed.

#[export] Hint Resolve paint_wf clear_wf toggle_grid_wf update_wf new_canvas_wf : canvas.

(** ** Properties of the methods *)

(** The pixel [update] draws at a point of a well-formed canvas. *)
Lemma update_pixel_at cv x y b :
  canvas_wf cv → in_canvas (x, y) → blocks cv !! cell_index (x, y) = Some b →
  pixel (surf (update cv)) x y =
    if bool_decide (show_grid cv ≠ 0) && (bool_decide (x mod SIZE = 0) || bool_decide (y mod SIZE = 0))
    then COLORS.BLACK else bcolor b.
Proof.
  intros Hwf Hp Hb. destruct Hwf as (Hw & Hh & Hr & Hg) eqn:Hwf'.
  unfold get_width, get_height in Hw, Hh.
  pose proof (draw_rects_dims (fill (surf cv) COLORS.BLACK) (blocks cv)) as [Hw2 Hh2].
  assert (Hin : in_bounds (fill (surf cv) COLORS.BLACK) x y = true).
  { apply in_bounds_spec. simpl. unfold in_canvas in Hp. simpl in Hp. lia. }
  unfold update. simpl. case_bool_decide; simpl.
  - rewrite draw_grid_pixel by (simpl in *; congruence || done).
    destruct (_ || _); [done|]. by eapply draw_rects_pixel.
  - by eapply draw_rects_pixel.
Qed.


Lemma paint_blocks_cases cv p c :
  canvas_wf cv →
  blocks (paint cv p c) =
    if decide (in_canvas p) then <[cell_index p := mkBlock (cell_rect (cell_index p)) c]> (blocks cv)
    else blocks cv.
Proof.
  intros Hwf. unfold paint; cbn [blocks]. case_decide as Hp.
  - destruct (canvas_block_lookup cv p Hwf Hp) as (b & Hb & Hr).
    rewrite (update_first_hit _ _ _ _ b Hb), Hr; [done | by apply (canvas_block_hit cv _ b p Hwf Hb) |].
    intros j b' Hj Hb'. apply not_true_iff_false. rewrite (canvas_block_hit cv j b' p Hwf Hb'). lia.
  - apply update_first_miss. by apply canvas_block_miss.
Qed.

(** ** The contract's operations, one by one *)

Lemma abs_new_canvas : abs new_canvas = Picture.blank.
Proof. vm_compute. reflexivity. Qed.

Lemma abs_paint cv p c : canvas_wf cv → abs (paint cv p c) = Picture.recolour (abs cv) p c.
Proof.
  intros Hwf. unfold abs, Picture.recolour. rewrite (paint_blocks_cases cv p c Hwf).
  case_decide; [|done]. by rewrite list_fmap_insert.
Qed.

Lemma abs_clear cv : canvas_wf cv → abs (clear cv) = Picture.whiten (abs cv).
Proof.
  intros Hwf. unfold abs, Picture.whiten; cbn. rewrite <-list_fmap_compose, <-(canvas_wf_length cv Hwf).
  by rewrite (const_fmap _ _ COLORS.WHITE).
Qed.

Lemma abs_toggle_grid cv : canvas_wf cv → abs (toggle_grid cv) = Picture.toggle (abs cv).
Proof.
  intros (_ & _ & _ & Hg). unfold abs, Picture.toggle; cbn. f_equal.
  repeat case_bool_decide; simpl; done || lia.
Qed.

(** Whatever block [paint] picks, its effect on the picture is at most one
    recolouring. *)
Lemma abs_paint_cases cv p c :
  canvas_wf cv → abs (paint cv p c) = abs cv ∨ ∃ q, abs (paint cv p c) = Picture.recolour (abs cv) q c.
Proof.
  intros Hwf. unfold paint, abs; cbn [blocks show_grid].
  match goal with |- context [update_first ?P ?F ?l] =>
    destruct (update_first_cases P F l) as [->|(i & b & Hi & ->)]; [by left|right] end.
  destruct (canvas_wf_lookup cv i b Hwf Hi) as [Hr Hlt]. destruct (cell_index_corner i Hlt) as [Hq Hk].
  exists (rx (cell_rect i), ry (cell_rect i)). unfold Picture.recolour. rewrite decide_True by done.
  cbn [Picture.cells Picture.grid]. by rewrite Hk, list_fmap_insert.
Qed.

(** [toggle_grid] flips the grid flag of the picture or leaves it as it is. *)
Lemma abs_toggle_grid_cases cv :
  canvas_wf cv → abs (toggle_grid cv) = Picture.toggle (abs cv) ∨ abs (toggle_grid cv) = abs cv.
Proof.
  intros (_ & _ & _ & Hg). unfold abs, Picture.toggle, toggle_grid; cbn.
  destruct Hg as [-> | ->]; cbn;
    first [left; f_equal; by repeat case_bool_decide | right; f_equal; by repeat case_bool_decide].
Qed.

Lemma edit_mono cs cs' pic pic' :
  cs ⊆ cs' → rtc (Picture.edit cs) pic pic' → rtc (Picture.edit cs') pic pic'.
Proof.
  intros Hcs. induction 1 as [|x y z Hxy _ IH]; [done|]. eapply rtc_l; [|exact IH].
  destruct Hxy; constructor; set_solver.
Qed.

(** [Canvas.__init__] creates the 15x15 tiling of 32-pixel blocks in
    column-major order, all white, with the grid hidden. *)
Lemma new_canvas_blocks :
  blocks new_canvas = (λ k, mkBlock (cell_rect k) COLORS.WHITE) <$> seq 0 (Z.to_nat (N * N)) ∧
  show_grid new_canvas = 0 ∧ get_width new_canvas = 480 ∧ get_height new_canvas = 480.
Proof. split_and!; vm_compute; reflexivity. Qed.

(** C1: painting a point of the canvas recolours the one block under it,
    block [cell_index p], and leaves every other block unchanged. *)
Theorem paint_hit cv p c :
  canvas_wf cv → in_canvas p →
  blocks (paint cv p c) = <[cell_index p := mkBlock (cell_rect (cell_index p)) c]> (blocks cv).
Proof.
  intros Hwf Hp. destruct (canvas_block_lookup cv p Hwf Hp) as (b & Hb & Hr). simpl.
  rewrite (update_first_hit _ _ _ _ b Hb), Hr; [done| |].
  - by apply (canvas_block_hit cv _ b p Hwf Hb).
  - intros j b' Hj Hb'. apply not_true_iff_false.
    rewrite (canvas_block_hit cv j b' p Hwf Hb'). lia.
Qed.

(** C2: painting a point outside the canvas changes nothing. *)
Theorem paint_outside cv p c : canvas_wf cv → ¬ in_canvas p → paint cv p c = cv.
Proof.
  intros Hwf Hp. destruct cv as [s bs g]. unfold paint; simpl.
  rewrite update_first_miss; [done|]. by apply (canvas_block_miss (mkCanvas s bs g)).
Qed.

(** C11: [clear] gives every block of a well-formed canvas back its initial
    white colour: the blocks are those of a fresh canvas. *)
Theorem clear_blocks cv : canvas_wf cv → blocks (clear cv) = blocks new_canvas.
Proof.
  intros (_ & _ & Hr & _). rewrite (proj1 new_canvas_blocks). unfold clear; cbn [blocks].
  change ((λ b, mkBlock (brect b) COLORS.WHITE) <$> blocks cv)
    with ((λ r, mkBlock r COLORS.WHITE) ∘ brect <$> blocks cv).
  by rewrite list_fmap_compose, Hr, <-list_fmap_compose.
Qed.

(** C17: toggling the grid twice restores the canvas, and each toggle flips
    whether the grid is shown. *)
Theorem toggle_grid_involutive cv :
  canvas_wf cv →
  toggle_grid (toggle_grid cv) = cv ∧ (show_grid (toggle_grid cv) ≠ 0 ↔ show_grid cv = 0).
Proof.
  intros (_ & _ & _ & Hg). destruct cv as [s bs g]; unfold toggle_grid; simpl in *.
  split; [f_equal; lia | split; lia].
Qed.

(** C9: [update] draws, at every pixel of the canvas, black when the grid is
    shown and the pixel is on a row or column multiple of 32, and otherwise
    the colour of the block under the pixel. *)
Theorem update_pixel cv x y b :
  canvas_wf cv → in_canvas (x, y) → blocks cv !! cell_index (x, y) = Some b →
  pixel (surf (update cv)) x y =
    if bool_decide (show_grid cv ≠ 0) && (bool_decide (x mod SIZE = 0) || bool_decide (y mod SIZE = 0))
    then COLORS.BLACK else bcolor b.
Proof. apply update_pixel_at. Qed.

(** C24: Painting a point and redrawing is a round trip: after [paint] with
    [c] at a point of a well-formed canvas and [update], the canvas surface
    shows [c] at that point, unless the grid is shown and one of its lines
    passes through the point. *)
Theorem paint_then_update cv p c :
  canvas_wf cv → in_canvas p → (show_grid cv = 0 ∨ (p.1 mod SIZE ≠ 0 ∧ p.2 mod SIZE ≠ 0)) →
  pixel (surf (update (paint cv p c))) p.1 p.2 = c.
Proof.
  intros Hwf Hp Hg. destruct p as [x y]; cbn [fst snd] in *.
  rewrite (update_pixel_at _ x y (mkBlock (cell_rect (cell_index (x, y))) c)); [| by apply paint_wf | done |].
  - cbn [show_grid paint bcolor]. destruct Hg as [->|[??]].
    + rewrite bool_decide_false by lia. done.
    + rewrite (bool_decide_false (x mod SIZE = 0)), (bool_decide_false (y mod SIZE = 0)) by done.
      by rewrite andb_false_r.
  - rewrite paint_blocks_cases, decide_True by done. apply list_lookup_insert_eq.
    rewrite canvas_wf_length by done. by apply cell_index_lt.
Qed.

(** ** Witnesses on concrete canvases *)

Ltac canvas_wf_compute :=
  split_and!; [reflexivity | reflexivity | vm_compute; reflexivity | first [left; reflexivity | right; reflexivity]].

Lemma paint_hit_witness :
  canvas_wf new_canvas ∧ in_canvas (40, 70) ∧
  blocks (paint new_canvas (40, 70) COLORS.BLUE) =
    <[cell_index (40, 70) := mkBlock (cell_rect (cell_index (40, 70))) COLORS.BLUE]> (blocks new_canvas).
Proof.
  assert (Hwf : canvas_wf new_canvas) by canvas_wf_compute.
  assert (Hp : in_canvas (40, 70)) by (unfold in_canvas, N, SIZE; simpl; lia).
  split_and!; [exact Hwf | exact Hp | exact (paint_hit _ _ _ Hwf Hp)].
Defined.

Lemma paint_outside_witness :
  canvas_wf new_canvas ∧ ¬ in_canvas (480, 5) ∧ paint new_canvas (480, 5) COLORS.RED = new_canvas.
Proof.
  assert (Hwf : canvas_wf new_canvas) by canvas_wf_compute.
  assert (Hp : ¬ in_canvas (480, 5)) by (unfold in_canvas, N, SIZE; simpl; lia).
  split_and!; [exact Hwf | exact Hp | exact (paint_outside _ _ _ Hwf Hp)].
Defined.

Lemma clear_blocks_witness :
  canvas_wf (paint new_canvas (5, 5) COLORS.RED) ∧
  blocks (clear (paint new_canvas (5, 5) COLORS.RED)) = blocks new_canvas.
Proof.
  assert (Hwf : canvas_wf (paint new_canvas (5, 5) COLORS.RED)) by canvas_wf_compute.
  split; [exact Hwf | exact (clear_blocks _ Hwf)].
Defined.

Lemma toggle_grid_involutive_witness :
  canvas_wf new_canvas ∧ toggle_grid (toggle_grid new_canvas) = new_canvas ∧
  (show_grid (toggle_grid new_canvas) ≠ 0 ↔ show_grid new_canvas = 0).
Proof.
  assert (Hwf : canvas_wf new_canvas) by canvas_wf_compute.
  split; [exact Hwf | exact (toggle_grid_involutive _ Hwf)].
Defined.

Lemma update_pixel_witness :
  let cv := paint (toggle_grid new_canvas) (40, 40) COLORS.BLUE in
  canvas_wf cv ∧ in_canvas (40, 40) ∧ blocks cv !! cell_index (40, 40) = Some (mkBlock (cell_rect 16) COLORS.BLUE) ∧
  pixel (surf (update cv)) 40 40 = COLORS.BLUE.
Proof.
  intros cv.
  assert (Hwf : canvas_wf cv) by canvas_wf_compute.
  assert (Hp : in_canvas (40, 40)) by (unfold in_canvas, N, SIZE; simpl; lia).
  assert (Hb : blocks cv !! cell_index (40, 40) = Some (mkBlock (cell_rect 16) COLORS.BLUE))
    by (vm_compute; reflexivity).
  split_and!; [exact Hwf | exact Hp | exact Hb |].
  rewrite (update_pixel _ _ _ _ Hwf Hp Hb). vm_compute. reflexivity.
Defined.

Lemma paint_then_update_witness :
  let cv := toggle_grid new_canvas in
  canvas_wf cv ∧ in_canvas (40, 70) ∧
  pixel (surf (update (paint cv (40, 70) COLORS.BLUE))) 40 70 = COLORS.BLUE.
Proof.
  intros cv.
  assert (Hwf : canvas_wf cv) by canvas_wf_compute.
  assert (Hp : in_canvas (40, 70)) by (unfold in_canvas, N, SIZE; simpl; lia).
  split_and!; [exact Hwf | exact Hp |].
  apply (paint_then_update cv (40, 70)); [exact Hwf | exact Hp | right; split; vm_compute; congruence].
Defined.

(** ** The canvas implements its contract *)


(** C18: with [abs] reading a canvas's picture, the fresh canvas is the
    blank picture and [paint], [clear], [toggle_grid] and [update] act on a
    well-formed canvas's picture as the contract says: recolour the cell
    under a point of the canvas, whiten every cell, flip the grid flag,
    leave the picture alone. *)
Theorem canvas_refines_picture cv p c :
  canvas_wf cv →
  abs new_canvas = Picture.blank ∧
  abs (paint cv p c) = Picture.recolour (abs cv) p c ∧
  abs (clear cv) = Picture.whiten (abs cv) ∧
  abs (toggle_grid cv) = Picture.toggle (abs cv) ∧
  abs (update cv) = abs cv.
Proof.
  intros Hwf. split_and!; [apply abs_new_canvas | by apply abs_paint | by apply abs_clear | by apply abs_toggle_grid | done].
Qed.

Lemma canvas_refines_picture_witness :
  let cv := paint new_canvas (5, 5) COLORS.RED in
  canvas_wf cv ∧
  abs new_canvas = Picture.blank ∧
  abs (paint cv (40, 70) COLORS.BLUE) = Picture.recolour (abs cv) (40, 70) COLORS.BLUE ∧
  abs (clear cv) = Picture.whiten (abs cv) ∧
  abs (toggle_grid cv) = Picture.toggle (abs cv) ∧
  abs (update cv) = abs cv.
Proof.
  intros cv. assert (Hwf : canvas_wf cv) by canvas_wf_compute.
  split; [exact Hwf | exact (canvas_refines_picture cv (40, 70) COLORS.BLUE Hwf)].
Defined.
