(* ===== verification/Palette.v ===== *)
(** * The palette: [class Palette] and the buttons of taint.py

    A [Palette] keeps the list [colors], the [Block]s laid out for them by
    [init_palette], the two buttons, the index [selected] of the current
    colour and the highlight colour.  [pcanvas_bound] records whether
    [bind_canvas] has set the attribute [self.canvas]; the canvas it
    refers to is the program's only canvas, which the event loop owns and
    passes to [select].

    [init_palette] appends a fresh layout of all the colours to [blocks]
    without emptying it first, so after [add_color] the list holds the old
    layout followed by the new one; [select] keeps the last block that
    contains the click, which is always in the newest layout.  [draw]
    returns the drawing calls of [Palette.draw]; [is_highlight] picks out
    the frame drawn around the selected block.

    [Module PaletteSpec] is the palette's contract (colour entries and
    the current one), [pabs] reads a palette through it, and
    [palette_refines_contract] shows that the methods implement it. *)

From S2P Require Import Prelude Surface Dialogs Canvas.

Local Open Scope Z_scope.

Record Palette := mkPalette {
  pblocks : list Block;
  offset : Z;
  colors : list rgb;
  button_add : Rect;
  button_clear : Rect;
  selected : nat;
  color_selected : rgb;
  pcanvas_bound : bool;
}.

Definition set_pblocks (p : Palette) (bs : list Block) : Palette :=
  mkPalette bs (offset p) (colors p) (button_add p) (button_clear p)
    (selected p) (color_selected p) (pcanvas_bound p).

Definition set_colors (p : Palette) (cs : list rgb) : Palette :=
  mkPalette (pblocks p) (offset p) cs (button_add p) (button_clear p)
    (selected p) (color_selected p) (pcanvas_bound p).

Definition set_selected (p : Palette) (i : nat) : Palette :=
  mkPalette (pblocks p) (offset p) (colors p) (button_add p) (button_clear p)
    i (color_selected p) (pcanvas_bound p).

(** The loop of [Palette.init_palette]: [(idx/3).is_integer()] holds
    exactly when [idx mod 3 = 0] (for every [idx] below 2^52, far beyond
    any palette). *)
Fixpoint init_palette_loop (off : Z) (idx : nat) (x y : Z) (cs : list rgb) : list Block :=
  match cs with
  | [] => []
  | c :: cs' =>
      let '(x, y) := if bool_decide (Z.of_nat idx mod 3 = 0) then (0, y + SIZE) else (x, y) in
      Block_ (off + x) y SIZE SIZE c :: init_palette_loop off (S idx) (x + SIZE) y cs'
  end.

(** [Palette.init_palette]: the new blocks are appended to [self.blocks]. *)
Definition init_palette (p : Palette) : Palette :=
  set_pblocks p (pblocks p ++ init_palette_loop (offset p) 0 0 0 (colors p)).

(** [Palette.__init__(offset, colors)] *)
Definition new_palette (off : Z) (cs : list rgb) : Palette :=
  let p := init_palette (mkPalette [] off cs (mkRect 0 0 0 0) (mkRect 0 0 0 0) 0 COLORS.BLACK false) in
  mkPalette (pblocks p) off cs (mkRect off 0 SIZE SIZE) (mkRect (off + SIZE) 0 SIZE SIZE)
    0 (255, 213, 0) false.

(** The property [Palette.color]: [self.blocks[self.selected].color]. *)
Definition color (p : Palette) : res rgb :=
  match pblocks p !! selected p with
  | Some b => Ok (bcolor b)
  | None => Err IndexError
  end.

(** [Palette.add_color] *)
Definition add_color (p : Palette) (c : rgb) : Palette :=
  init_palette (set_colors p (colors p ++ [c])).

(** [Palette.bind_canvas] *)
Definition bind_canvas (p : Palette) : Palette :=
  mkPalette (pblocks p) (offset p) (colors p) (button_add p) (button_clear p)
    (selected p) (color_selected p) true.

Section select.
Context `{Dialogs D}.

(** [Palette.select(pos)]: the add button asks for a colour, the clear
    button asks for confirmation and clears the bound canvas, any other
    click selects the last block containing [pos]. *)
Definition select (p : Palette) (cv : Canvas) (d : D) (pos : point) : res (Palette * Canvas * D) :=
  if collidepoint (button_add p) pos then
    let '(oc, d') := prompt_color d in
    match oc with
    | Some c => Ok (add_color p c, cv, d')
    | None => Ok (p, cv, d')
    end
  else if collidepoint (button_clear p) pos then
    let '(ok, d') := prompt_clear d in
    if ok then
      (if pcanvas_bound p then Ok (p, clear cv, d') else Err AttributeError)
    else Ok (p, cv, d')
  else
    Ok (set_selected p (last_match (λ b, collidepoint (brect b) pos) 0 (pblocks p) (selected p)),
        cv, d).
End select.

(** [PickerButton.draw]: a framed plus sign. *)
Definition PickerButton_draw (r : Rect) : list DrawCmd :=
  let o := 5 in
  [DrawRect COLORS.WHITE r 1;
   DrawLine COLORS.WHITE (rcenterx r, rtop r + o) (rcenterx r, rbottom r - o) 3;
   DrawLine COLORS.WHITE (rleft r + o, rcentery r) (rright r - o, rcentery r) 3].

(** [ClearButton.draw]: a framed cross. *)
Definition ClearButton_draw (r : Rect) : list DrawCmd :=
  let o := 5 in
  [DrawRect COLORS.WHITE r 1;
   DrawLine COLORS.WHITE (rleft r + o, rtop r + o) (rright r - o, rbottom r - o) 3;
   DrawLine COLORS.WHITE (rleft r + o, rbottom r - o) (rright r - o, rtop r + o) 3].

(** [Palette.draw] *)
Definition draw (p : Palette) : list DrawCmd :=
  concat (imap (λ idx b,
      DrawRect (bcolor b) (brect b) 0 ::
      (if bool_decide (idx = selected p) then [DrawRect (color_selected p) (brect b) 1] else []))
    (pblocks p))
  ++ PickerButton_draw (button_add p) ++ ClearButton_draw (button_clear p).

(** ** The layout in closed form *)

Definition palette_rect (off : Z) (i : nat) : Rect :=
  mkRect (off + SIZE * (Z.of_nat i mod 3)) (SIZE * (Z.of_nat i / 3 + 1)) SIZE SIZE.

Definition layout (off : Z) (cs : list rgb) : list Block :=
  imap (λ i c, mkBlock (palette_rect off i) c) cs.

(** The palette invariant: the buttons in row 0, at least one colour,
    the newest layout of [colors] at the end of [blocks] with older blocks
    before it that each show one of the colours at its place, and
    [selected] a valid index. *)
Definition palette_wf (p : Palette) : Prop :=
  button_add p = mkRect (offset p) 0 SIZE SIZE ∧
  button_clear p = mkRect (offset p + SIZE) 0 SIZE SIZE ∧
  colors p ≠ [] ∧
  (∃ pre, pblocks p = pre ++ layout (offset p) (colors p) ∧
     ∀ b, b ∈ pre → ∃ j c, b = mkBlock (palette_rect (offset p) j) c ∧ colors p !! j = Some c) ∧
  (selected p < length (pblocks p))%nat.

(** The highlight frame drawn around a block: a width-1 rectangle in
    colour [c]. *)
Definition is_highlight (c : rgb) (cmd : DrawCmd) : bool :=
  match cmd with
  | DrawRect c' _ w => bool_decide (c' = c ∧ w = 1)
  | _ => false
  end.

(** ** The contract of the palette

    What the rest of the program relies on: a list of colour entries and
    the index of the current one.  Creating a palette makes the first
    entry current; adding a colour appends an entry and keeps the current
    one; a click on the palette adds an entry, chooses an entry, or
    changes nothing. *)
Module PaletteSpec.
Record t := mk { entries : list rgb; current : nat }.

Definition init (cs : list rgb) : t := mk cs 0.
Definition add (s : t) (c : rgb) : t := mk (entries s ++ [c]) (current s).
Definition choose (s : t) (j : nat) : t := mk (entries s) j.
Definition colour (s : t) : option rgb := entries s !! current s.

Inductive click : t → t → Prop :=
  | click_add s c : click s (add s c)
  | click_choose s j : (j < length (entries s))%nat → click s (choose s j)
  | click_stay s : click s s.
End PaletteSpec.

(** The entry a block of the layout stands for: the inverse of
    [palette_rect]. *)
Definition palette_index (off : Z) (r : Rect) : nat :=
  Z.to_nat (3 * (ry r / SIZE - 1) + (rx r - off) / SIZE).

(** A palette read through the contract: its colours, and the entry of
    the selected block. *)
Definition pabs (p : Palette) : PaletteSpec.t :=
  PaletteSpec.mk (colors p)
    (match pblocks p !! selected p with Some b => palette_index (offset p) (brect b) | None => 0%nat end).

(** ** Layout lemmas *)

Create HintDb palette.

Lemma init_palette_loop_layout off cs : ∀ idx x y,
  (Z.of_nat idx mod 3 = 0 ∧ y = SIZE * (Z.of_nat idx / 3)) ∨
  (Z.of_nat idx mod 3 ≠ 0 ∧ x = SIZE * (Z.of_nat idx mod 3) ∧ y = SIZE * (Z.of_nat idx / 3 + 1)) →
  init_palette_loop off idx x y cs = imap (λ i c, mkBlock (palette_rect off (idx + i)) c) cs.
Proof.
  induction cs as [|c cs IH]; intros idx x y Hinv; [done|].
  cbn [init_palette_loop]. rewrite imap_cons.
  case_bool_decide as Hm; cbn [fst snd]; f_equal.
  - unfold Block_, palette_rect. rewrite Nat.add_0_r. f_equal. f_equal; unfold SIZE in *; divlia.
  - rewrite (IH (S idx)); [apply imap_ext; intros; unfold compose; do 2 f_equal; lia|]. right. unfold SIZE in *. divlia.
  - unfold Block_, palette_rect. rewrite Nat.add_0_r. f_equal. f_equal; unfold SIZE in *; divlia.
  - rewrite (IH (S idx)); [apply imap_ext; intros; unfold compose; do 2 f_equal; lia|].
    destruct (decide (Z.of_nat (S idx) mod 3 = 0)); [left|right]; unfold SIZE in *; divlia.
Qed.

Lemma init_palette_loop_0 off cs : init_palette_loop off 0 0 0 cs = layout off cs.
Proof. rewrite init_palette_loop_layout by (left; done). done. Qed.

Lemma layout_lookup off cs j :
  layout off cs !! j = (λ c, mkBlock (palette_rect off j) c) <$> cs !! j.
Proof. unfold layout. by rewrite list_lookup_imap. Qed.

Lemma length_layout off cs : length (layout off cs) = length cs.
Proof. apply length_imap. Qed.

(** Two palette cells containing the same point are the same cell. *)
Lemma palette_rect_unique off i j p :
  collidepoint (palette_rect off i) p = true → collidepoint (palette_rect off j) p = true → i = j.
Proof. intros Hi Hj. collide_arith. unfold SIZE in *. divlia. Qed.

(** Round trip between an entry and its cell. *)
Lemma palette_index_rect off j : palette_index off (palette_rect off j) = j.
Proof. unfold palette_index, palette_rect, SIZE. cbn [rx ry]. divlia. Qed.

(** Palette cells lie below the buttons' row. *)
Lemma palette_rect_below off i p :
  collidepoint (palette_rect off i) p = true → SIZE <= p.2.
Proof. intros Hi. collide_arith. unfold SIZE in *. divlia. Qed.

Lemma palette_wf_buttons p pos :
  palette_wf p → collidepoint (button_add p) pos = true ∨ collidepoint (button_clear p) pos = true →
  pos.2 < SIZE.
Proof. intros (-> & -> & _) [H|H]; collide_arith; lia. Qed.

#[export] Hint Resolve init_palette_loop_0 length_layout : palette.

(** ** The invariant *)

Lemma palette_wf_blocks p k b :
  palette_wf p → pblocks p !! k = Some b →
  ∃ j c, b = mkBlock (palette_rect (offset p) j) c ∧ colors p !! j = Some c.
Proof.
  intros (_ & _ & _ & (pre & Hpb & Hpre) & _) Hk. rewrite Hpb in Hk.
  apply lookup_app_Some in Hk as [Hk|[_ Hk]].
  - apply Hpre. by eapply list_elem_of_lookup_2.
  - rewrite layout_lookup in Hk.
    destruct (colors p !! _) eqn:E; simplify_eq/=. eauto.
Qed.

Lemma add_color_blocks p c :
  pblocks (add_color p c) = pblocks p ++ layout (offset p) (colors p ++ [c]).
Proof. unfold add_color, init_palette. cbn [pblocks set_pblocks set_colors]. by rewrite init_palette_loop_0. Qed.

Lemma new_palette_wf off cs : cs ≠ [] → palette_wf (new_palette off cs).
Proof.
  intros Hcs. split_and!; try done.
  - exists []. split; [|set_solver]. cbn. by rewrite init_palette_loop_0.
  - cbn. rewrite init_palette_loop_0, length_layout. destruct cs; [done|]. simpl. lia.
Qed.

Lemma add_color_wf p c : palette_wf p → palette_wf (add_color p c).
Proof.
  intros Hwf. pose proof Hwf as (Ha & Hc & Hne & _ & Hsel).
  split_and!; try done.
  - cbn. by destruct (colors p).
  - exists (pblocks p). split; [apply add_color_blocks|].
    intros b Hb. apply list_elem_of_lookup in Hb as [k Hk].
    destruct (palette_wf_blocks p k b Hwf Hk) as (j & c' & -> & Hj).
    exists j, c'. split; [done|]. cbn. by apply lookup_app_l_Some.
  - unfold add_color, init_palette. cbn.
    rewrite ?init_palette_loop_0, ?length_app, ?length_layout, ?length_app. cbn [length]. lia.
Qed.

Lemma bind_canvas_wf p : palette_wf p → palette_wf (bind_canvas p).
Proof. done. Qed.

Lemma select_wf `{Dialogs D} p cv d pos p' cv' d' :
  palette_wf p → select p cv d pos = Ok (p', cv', d') → palette_wf p'.
Proof.
  intros Hwf. unfold select.
  destruct (collidepoint (button_add p) pos).
  { destruct (prompt_color d) as [[c|] d2]; intros; simplify_eq; auto using add_color_wf. }
  destruct (collidepoint (button_clear p) pos).
  { destruct (prompt_clear d) as [[] d2]; [destruct (pcanvas_bound p)|]; intros; simplify_eq; done. }
  intros; simplify_eq. destruct Hwf as (? & ? & ? & ? & Hsel). split_and!; try done. cbn.
  match goal with |- (last_match ?q 0 ?l ?s < _)%nat => destruct (last_match_range q 0 l s) as [->|] end;
    rewrite ?length_reverse in *; lia.
Qed.

(** On a well-formed palette [self.blocks[self.selected]] never raises,
    and its colour is one of [colors]. *)
Lemma palette_color_ok p : palette_wf p → ∃ c, color p = Ok c ∧ c ∈ colors p.
Proof.
  intros Hwf. pose proof Hwf as (_ & _ & _ & _ & Hsel).
  destruct (lookup_lt_is_Some_2 _ _ Hsel) as [b Hb].
  destruct (palette_wf_blocks p _ b Hwf Hb) as (j & c & -> & Hj).
  exists c. unfold color. rewrite Hb. split; [done|]. by eapply list_elem_of_lookup_2.
Qed.

Lemma select_canvas `{Dialogs D} p cv d pos p' cv' d' :
  select p cv d pos = Ok (p', cv', d') → cv' = cv ∨ cv' = clear cv.
Proof.
  unfold select. destruct (collidepoint (button_add p) pos).
  { destruct (prompt_color d) as [[c|] d2]; intros; simplify_eq; by left. }
  destruct (collidepoint (button_clear p) pos).
  { destruct (prompt_clear d) as [[] d2]; [destruct (pcanvas_bound p)|]; intros; simplify_eq; auto. }
  intros; simplify_eq. by left.
Qed.

(** [select] only ever adds colours. *)
Lemma select_colors `{Dialogs D} p cv d pos p' cv' d' :
  select p cv d pos = Ok (p', cv', d') → colors p ⊆ colors p'.
Proof.
  unfold select. destruct (collidepoint (button_add p) pos).
  { destruct (prompt_color d) as [[c|] d2]; intros; simplify_eq; cbn; set_solver. }
  destruct (collidepoint (button_clear p) pos).
  { destruct (prompt_clear d) as [[] d2]; [destruct (pcanvas_bound p)|]; intros; simplify_eq; done. }
  intros; simplify_eq. done.
Qed.

(** [select] raises only through [self.canvas] on an unbound palette. *)
Lemma select_ok `{Dialogs D} p cv d pos :
  pcanvas_bound p = true → ∃ st, select p cv d pos = Ok st.
Proof.
  intros Hb. unfold select. destruct (collidepoint (button_add p) pos).
  { destruct (prompt_color d) as [[c|] d2]; eauto. }
  destruct (collidepoint (button_clear p) pos); [|eauto].
  destruct (prompt_clear d) as [[] d2]; [rewrite Hb|]; eauto.
Qed.

Lemma select_bound `{Dialogs D} p cv d pos p' cv' d' :
  select p cv d pos = Ok (p', cv', d') → pcanvas_bound p' = pcanvas_bound p ∧ offset p' = offset p.
Proof.
  unfold select. destruct (collidepoint (button_add p) pos).
  { destruct (prompt_color d) as [[c|] d2]; intros; simplify_eq; split; reflexivity. }
  destruct (collidepoint (button_clear p) pos).
  { destruct (prompt_clear d) as [[] d2]; [destruct (pcanvas_bound p) eqn:E|]; intros; simplify_eq; by split. }
  intros; simplify_eq. split; reflexivity.
Qed.

#[export] Hint Resolve new_palette_wf add_color_wf bind_canvas_wf : palette.

(** Neither button contains a point of a palette cell. *)
Lemma palette_cell_not_button p pos j :
  palette_wf p → collidepoint (palette_rect (offset p) j) pos = true →
  collidepoint (button_add p) pos = false ∧ collidepoint (button_clear p) pos = false.
Proof.
  intros Hwf Hpos. pose proof (palette_rect_below _ _ _ Hpos).
  split; apply not_true_iff_false; intros Hb;
    pose proof (palette_wf_buttons p pos Hwf (ltac:(tauto))); lia.
Qed.

(** ** Properties of the methods *)

(** C10: [init_palette] lays entry [i] out at column [i mod 3] and row
    [i / 3 + 1] (row 0 holds the buttons): the loop with its running [x]
    and [y] computes the closed-form layout. *)
Theorem new_palette_layout off cs :
  pblocks (new_palette off cs) = layout off cs ∧ selected (new_palette off cs) = 0%nat ∧
  button_add (new_palette off cs) = mkRect off 0 SIZE SIZE ∧
  button_clear (new_palette off cs) = mkRect (off + SIZE) 0 SIZE SIZE.
Proof. split_and!; try done. cbn. by rewrite init_palette_loop_0. Qed.

(** C6: [add_color] appends exactly one colour, but [init_palette] does
    not empty [self.blocks]: the old blocks stay and a full new layout is
    appended, so the block list grows by [len(colors) + 1], not by 1. *)
Theorem add_color_duplicates p c :
  colors (add_color p c) = colors p ++ [c] ∧
  pblocks (add_color p c) = pblocks p ++ layout (offset p) (colors p ++ [c]) ∧
  length (pblocks (add_color p c)) = (length (pblocks p) + length (colors p) + 1)%nat.
Proof.
  rewrite add_color_blocks, length_app, length_layout, length_app. split_and!; [done|done|].
  simpl. lia.
Qed.

(** C27: the block list grows quadratically: after the user adds the
    colours [cs] one by one to a palette of [n] colours, it holds
    [k * (2n + k + 1) / 2] more blocks, for [k = length cs], although
    only [k] colours were added. *)
Theorem add_colors_blocks_length p cs :
  colors (foldl add_color p cs) = colors p ++ cs ∧
  (2 * length (pblocks (foldl add_color p cs)) =
     2 * length (pblocks p) + length cs * (2 * length (colors p) + length cs + 1))%nat.
Proof.
  revert p. induction cs as [|c cs IH]; intros p; cbn [foldl]; [split; [by rewrite app_nil_r|cbn [length]; lia]|].
  destruct (IH (add_color p c)) as [-> ->].
  rewrite add_color_blocks, length_app, length_layout. cbn [add_color init_palette set_pblocks set_colors colors].
  rewrite <-app_assoc, !length_app. split; [done|]. cbn [length]. nia.
Qed.

(** C29: the block list after adding the colours [cs] one by one is the
    old list followed by one full layout per addition: the layout of the
    colour list as it stood after each call to [add_color], in order. *)
Theorem add_colors_blocks p cs :
  pblocks (foldl add_color p cs) =
    pblocks p ++ concat ((λ j, layout (offset p) (colors p ++ take j cs)) <$> seq 1 (length cs)).
Proof.
  revert p. induction cs as [|c cs IH]; intros p; cbn [foldl]; [by rewrite app_nil_r|].
  rewrite IH, add_color_blocks, <-app_assoc. cbn [length seq]. rewrite <-(fmap_S_seq 1), fmap_cons.
  cbn [concat take]. rewrite <-list_fmap_compose. do 2 f_equal.
  f_equal. apply list_fmap_ext. intros k j _. cbn. by rewrite <-app_assoc.
Qed.


Section select_props.
Context `{Dialogs D}.

(** C5: clicking inside the cell of entry [j] selects it: [selected]
    becomes the index of entry [j] in the newest layout (the last of the
    duplicated blocks), and the current colour becomes colour [j]. *)
Theorem select_entry p cv d pos j c :
  palette_wf p → colors p !! j = Some c →
  collidepoint (palette_rect (offset p) j) pos = true →
  ∃ p', select p cv d pos = Ok (p', cv, d) ∧
        selected p' = (length (pblocks p) - length (colors p) + j)%nat ∧ color p' = Ok c.
Proof.
  intros Hwf Hj Hpos. pose proof Hwf as (_ & _ & _ & (pre & Hpb & _) & _).
  destruct (palette_cell_not_button p pos j Hwf Hpos) as [Ha Hc].
  assert (Hlen : (length (pblocks p) - length (colors p) = length pre)%nat)
    by (rewrite Hpb, length_app, length_layout; lia).
  assert (Hat : pblocks p !! (length pre + j)%nat = Some (mkBlock (palette_rect (offset p) j) c)).
  { rewrite Hpb, lookup_app_r by lia. rewrite layout_lookup.
    by replace (length pre + j - length pre)%nat with j by lia; rewrite Hj. }
  unfold select. rewrite Ha, Hc. eexists. split; [reflexivity|]. cbn.
  rewrite (last_match_hit _ _ _ _ _ _ Hat Hpos), Hlen. split; [done|].
  - unfold color. cbn. by rewrite Hat.
  - intros k b Hk Hb. rewrite Hpb in Hb.
    apply lookup_app_Some in Hb as [Hb|[Hl Hb]]; [apply lookup_lt_Some in Hb; lia|].
    rewrite layout_lookup in Hb. destruct (colors p !! (k - length pre)%nat) eqn:E; simplify_eq/=.
    apply not_true_iff_false. intros Hcol.
    pose proof (palette_rect_unique _ _ _ _ Hcol Hpos). lia.
Qed.

(** C13: the add button asks for a colour; a chosen colour is appended
    (one more colour, the current colour unchanged), a cancelled
    dialog changes nothing. *)
Theorem select_add_button p cv d pos :
  palette_wf p → collidepoint (button_add p) pos = true →
  match prompt_color d with
  | (Some c, d') =>
      select p cv d pos = Ok (add_color p c, cv, d') ∧
      length (colors (add_color p c)) = S (length (colors p)) ∧
      color (add_color p c) = color p
  | (None, d') => select p cv d pos = Ok (p, cv, d')
  end.
Proof.
  intros Hwf Ha. pose proof Hwf as (_ & _ & _ & _ & Hsel).
  unfold select. rewrite Ha. destruct (prompt_color d) as [[c|] d']; [|done].
  split_and!; [done| |].
  - cbn. rewrite length_app. simpl. lia.
  - unfold color. rewrite add_color_blocks. cbn. by rewrite lookup_app_l.
Qed.

(** C12: the clear button asks for confirmation; on "OK" the bound canvas
    is cleared (an unbound palette raises [AttributeError]), on "Cancel"
    nothing changes. *)
Theorem select_clear_button p cv d pos :
  palette_wf p → collidepoint (button_clear p) pos = true →
  match prompt_clear d with
  | (true, d') =>
      select p cv d pos = if pcanvas_bound p then Ok (p, clear cv, d') else Err AttributeError
  | (false, d') => select p cv d pos = Ok (p, cv, d')
  end.
Proof.
  intros Hwf Hc. pose proof Hwf as (Ha' & Hc' & _).
  assert (Ha : collidepoint (button_add p) pos = false).
  { rewrite Ha'. rewrite Hc' in Hc. collide_arith. lia. }
  unfold select. rewrite Ha, Hc. by destruct (prompt_clear d) as [[] d'].
Qed.
End select_props.

(** ** Drawing and clicks outside the palette *)

Lemma filter_concat_imap {A B} (P : B → Prop) `{∀ x, Decision (P x)} (f : nat → A → list B) (l : list A) :
  filter P (concat (imap f l)) = concat (imap (λ i x, filter P (f i x)) l).
Proof.
  revert f. induction l as [|x l IH]; intros f; [done|].
  rewrite !imap_cons. cbn [concat]. by rewrite filter_app, IH.
Qed.

Lemma concat_imap_at {A B} (g : A → B) (l : list A) k :
  concat (imap (λ i x, if bool_decide (i = k) then [g x] else []) l) =
  match l !! k with Some x => [g x] | None => [] end.
Proof.
  revert k. induction l as [|x l IH]; intros k; [done|]. rewrite imap_cons. cbn [concat].
  destruct k as [|k].
  - rewrite bool_decide_true by done.
    rewrite (imap_ext _ (λ _ _, @nil B)); [|intros i y _; unfold compose; by rewrite bool_decide_false by lia].
    assert (Hnil : ∀ l' : list A, concat (imap (λ _ _, @nil B) l') = [])
      by (induction l' as [|? ? IH']; [done|rewrite imap_cons; exact IH']).
    by rewrite Hnil.
  - rewrite bool_decide_false by lia. cbn [app].
    rewrite (imap_ext _ (λ i x, if bool_decide (i = k) then [g x] else [])); [apply IH|].
    intros i y _. unfold compose. repeat case_bool_decide; done || lia.
Qed.

(** No button drawing call is a highlight frame. *)
Lemma buttons_no_highlight c r :
  c ≠ COLORS.WHITE →
  filter (λ cmd, is_highlight c cmd = true) (PickerButton_draw r ++ ClearButton_draw r) = [].
Proof.
  intros Hc. unfold PickerButton_draw, ClearButton_draw. cbn [app].
  repeat (rewrite filter_cons, decide_False; [|cbn; rewrite ?bool_decide_eq_true; naive_solver]).
  apply filter_nil.
Qed.

(** C19: [Palette.draw] frames exactly one block with the highlight
    colour: the block at index [selected]. *)
Theorem draw_highlight p b :
  pblocks p !! selected p = Some b → color_selected p ≠ COLORS.WHITE →
  filter (λ cmd, is_highlight (color_selected p) cmd = true) (draw p) =
  [DrawRect (color_selected p) (brect b) 1].
Proof.
  intros Hb Hc. unfold draw. rewrite !filter_app, filter_concat_imap.
  rewrite (imap_ext _ (λ i x, if bool_decide (i = selected p)
                              then [DrawRect (color_selected p) (brect x) 1] else [])).
  - rewrite concat_imap_at, Hb.
    pose proof (buttons_no_highlight (color_selected p) (button_add p) Hc) as Ha.
    pose proof (buttons_no_highlight (color_selected p) (button_clear p) Hc) as Hcl.
    rewrite !filter_app in Ha, Hcl. apply app_nil in Ha as [-> _]. apply app_nil in Hcl as [_ ->].
    done.
  - intros i x _. rewrite filter_cons, decide_False by (cbn; rewrite bool_decide_eq_true; lia).
    case_bool_decide; [|apply filter_nil].
    rewrite filter_cons, decide_True, filter_nil by (cbn; by rewrite bool_decide_eq_true). done.
Qed.

Section select_outside.
Context `{Dialogs D}.

(** C20: a click left of the palette (on the canvas, for instance)
    reaches [select], which changes nothing and opens no dialog. *)
Theorem select_left_of_palette p cv d pos :
  palette_wf p → pos.1 < offset p → select p cv d pos = Ok (p, cv, d).
Proof.
  intros Hwf Hx. pose proof Hwf as (Ha & Hc & _).
  unfold select. rewrite Ha, Hc.
  replace (collidepoint _ pos) with false by (symmetry; collide_arith; lia).
  replace (collidepoint _ pos) with false by (symmetry; collide_arith; lia).
  rewrite last_match_miss; [by destruct p|].
  intros b Hb. rewrite ?elem_of_reverse in Hb. apply list_elem_of_lookup in Hb as [k Hk].
  destruct (palette_wf_blocks p k b Hwf Hk) as (j & c & -> & _).
  collide_arith. unfold SIZE in *. divlia.
Qed.
End select_outside.

(** ** The palette refines its contract *)

Lemma pabs_selected p b :
  palette_wf p → pblocks p !! selected p = Some b →
  ∃ j c, b = mkBlock (palette_rect (offset p) j) c ∧ colors p !! j = Some c ∧
         PaletteSpec.current (pabs p) = j.
Proof.
  intros Hwf Hb. destruct (palette_wf_blocks p _ b Hwf Hb) as (j & c & -> & Hj).
  exists j, c. split_and!; [done|done|]. cbn. rewrite Hb. cbn [brect]. by rewrite palette_index_rect.
Qed.

Section window_rows.
Context `{Dialogs D}.

(** C21: a click inside the program's 576-pixel window ([window_height]
    of the event loop) never selects a palette entry from index 51 on
    (those cells lie at or below the window's bottom edge): after
    [Palette.select], the selection is unchanged or is a block laid out
    for an entry below 51. *)
Theorem palette_entries_below_window p cv d pos p' cv' d' :
  palette_wf p → pos.2 < 576 → select p cv d pos = Ok (p', cv', d') →
  selected p' = selected p ∨
  ∃ b j c, pblocks p !! selected p' = Some b ∧ b = mkBlock (palette_rect (offset p) j) c ∧ (j < 51)%nat.
Proof.
  intros Hwf Hy. unfold select. destruct (collidepoint (button_add p) pos).
  { destruct (prompt_color d) as [[c|] d1]; intros [= <- <- <-]; by left. }
  destruct (collidepoint (button_clear p) pos).
  { destruct (prompt_clear d) as [[] d1]; [destruct (pcanvas_bound p)|]; intros; simplify_eq; by left. }
  intros [= <- <- <-]. cbn [selected set_selected].
  destruct (last_match_cases (λ b, collidepoint (brect b) pos) 0 (pblocks p) (selected p))
    as [-> | (k & x & Hk & Hx & ->)]; [by left|right].
  destruct (palette_wf_blocks p k x Hwf Hk) as (j & c & -> & _).
  exists (mkBlock (palette_rect (offset p) j) c), j, c. split_and!; [done|done|].
  cbn [brect] in Hx. collide_arith. unfold SIZE in *. divlia.
Qed.
End window_rows.

Section contract.
Context `{Dialogs D}.

(** C34: the palette implements its contract: read through [pabs], a new
    palette is the contract's initial state; on a well-formed palette the
    property [color] is the contract's current colour, [add_color] is the
    contract's [add], and every click handled by [select] is a click of
    the contract (an added entry, a chosen existing entry, or nothing). *)
Theorem palette_refines_contract p :
  (∀ off cs, pabs (new_palette off cs) = PaletteSpec.init cs) ∧
  (palette_wf p →
     (∃ c, color p = Ok c ∧ PaletteSpec.colour (pabs p) = Some c) ∧
     (∀ c, pabs (add_color p c) = PaletteSpec.add (pabs p) c) ∧
     (∀ cv d pos p' cv' d', select p cv d pos = Ok (p', cv', d') → PaletteSpec.click (pabs p) (pabs p'))).
Proof.
  split.
  { intros off cs. unfold pabs, PaletteSpec.init. cbn. rewrite init_palette_loop_0, layout_lookup.
    destruct cs; [done|]. simpl. by rewrite palette_index_rect. }
  intros Hwf. pose proof Hwf as (_ & _ & _ & _ & Hsel).
  destruct (lookup_lt_is_Some_2 _ _ Hsel) as [b Hb].
  destruct (pabs_selected p b Hwf Hb) as (j & c & -> & Hj & Hcur).
  split_and!.
  - exists c. unfold color, PaletteSpec.colour. rewrite Hb, Hcur. done.
  - intros c'. unfold pabs, PaletteSpec.add. rewrite add_color_blocks. cbn.
    by rewrite lookup_app_l by done.
  - intros cv d pos p' cv' d'. unfold select. destruct (collidepoint (button_add p) pos).
    { destruct (prompt_color d) as [[c'|] d2]; intros; simplify_eq.
      - replace (pabs (add_color p c')) with (PaletteSpec.add (pabs p) c'); [apply PaletteSpec.click_add|].
        unfold pabs, PaletteSpec.add. rewrite add_color_blocks. cbn. by rewrite lookup_app_l by done.
      - apply PaletteSpec.click_stay. }
    destruct (collidepoint (button_clear p) pos).
    { destruct (prompt_clear d) as [[] d2]; [destruct (pcanvas_bound p)|]; intros; simplify_eq; apply PaletteSpec.click_stay. }
    intros; simplify_eq.
    match goal with |- context [last_match ?P ?i ?l ?sel] =>
      set (k := last_match P i l sel); destruct (last_match_range P i l sel) as [Hk|Hk]; fold k in Hk end;
      rewrite ?length_reverse in Hk.
    + replace (set_selected p k) with p by (rewrite Hk; by destruct p). apply PaletteSpec.click_stay.
    + destruct (lookup_lt_is_Some_2 (pblocks p) k) as [b' Hb']; [lia|].
      destruct (palette_wf_blocks p k b' Hwf Hb') as (j' & c' & -> & Hj').
      replace (pabs (set_selected p k)) with (PaletteSpec.choose (pabs p) j').
      * apply PaletteSpec.click_choose. cbn. by eapply lookup_lt_Some.
      * unfold pabs, PaletteSpec.choose. cbn. rewrite Hb'. cbn [brect]. by rewrite palette_index_rect.
Qed.
End contract.

(** ** Witnesses on the program's palette *)

Ltac palette_wf_compute :=
  split_and!; [reflexivity | reflexivity | discriminate |
               exists []; split; [vm_compute; reflexivity | intros ? ?%elem_of_nil; done] |
               vm_compute; lia].

Lemma select_entry_witness :
  let p := bind_canvas (new_palette 824 [COLORS.RED; COLORS.GREEN; COLORS.BLUE; COLORS.WHITE; COLORS.BLACK]) in
  palette_wf p ∧ colors p !! 2%nat = Some COLORS.BLUE ∧
  collidepoint (palette_rect (offset p) 2) (890, 40) = true ∧
  ∃ p', select p new_canvas no_answers (890, 40) = Ok (p', new_canvas, no_answers) ∧
        selected p' = (length (pblocks p) - length (colors p) + 2)%nat ∧ color p' = Ok COLORS.BLUE.
Proof.
  intros p.
  assert (Hwf : palette_wf p) by palette_wf_compute.
  assert (Hj : colors p !! 2%nat = Some COLORS.BLUE) by reflexivity.
  assert (Hc : collidepoint (palette_rect (offset p) 2) (890, 40) = true) by reflexivity.
  split_and!; [exact Hwf | exact Hj | exact Hc | exact (select_entry p new_canvas no_answers _ _ _ Hwf Hj Hc)].
Defined.

Lemma select_add_button_witness :
  let p := bind_canvas (new_palette 824 [COLORS.RED; COLORS.GREEN; COLORS.BLUE; COLORS.WHITE; COLORS.BLACK]) in
  let d := mkScript [] [Some (10, 20, 30)] [] [] in
  palette_wf p ∧ collidepoint (button_add p) (830, 5) = true ∧
  select p new_canvas d (830, 5) = Ok (add_color p (10, 20, 30), new_canvas, no_answers) ∧
  length (colors (add_color p (10, 20, 30))) = 6%nat ∧ color (add_color p (10, 20, 30)) = color p.
Proof.
  intros p d.
  assert (Hwf : palette_wf p) by palette_wf_compute.
  assert (Ha : collidepoint (button_add p) (830, 5) = true) by reflexivity.
  split; [exact Hwf|]. split; [exact Ha|]. exact (select_add_button p new_canvas d _ Hwf Ha).
Defined.

Lemma select_clear_button_witness :
  let p := bind_canvas (new_palette 824 [COLORS.RED; COLORS.GREEN; COLORS.BLUE; COLORS.WHITE; COLORS.BLACK]) in
  let d := mkScript [] [] [true] [] in
  palette_wf p ∧ collidepoint (button_clear p) (861, 5) = true ∧
  select p new_canvas d (861, 5) = Ok (p, clear new_canvas, no_answers).
Proof.
  intros p d.
  assert (Hwf : palette_wf p) by palette_wf_compute.
  assert (Hc : collidepoint (button_clear p) (861, 5) = true) by reflexivity.
  split_and!; [exact Hwf | exact Hc | exact (select_clear_button p new_canvas d _ Hwf Hc)].
Defined.

Lemma draw_highlight_witness :
  let p := bind_canvas (new_palette 824 [COLORS.RED; COLORS.GREEN; COLORS.BLUE; COLORS.WHITE; COLORS.BLACK]) in
  pblocks p !! selected p = Some (mkBlock (palette_rect 824 0) COLORS.RED) ∧
  color_selected p ≠ COLORS.WHITE ∧
  filter (λ cmd, is_highlight (color_selected p) cmd = true) (draw p) =
    [DrawRect (color_selected p) (mkRect 824 32 32 32) 1].
Proof.
  intros p.
  assert (Hb : pblocks p !! selected p = Some (mkBlock (palette_rect 824 0) COLORS.RED)) by reflexivity.
  assert (Hc : color_selected p ≠ COLORS.WHITE) by discriminate.
  split_and!; [exact Hb | exact Hc | exact (draw_highlight p _ Hb Hc)].
Defined.

Lemma select_left_of_palette_witness :
  let p := bind_canvas (new_palette 824 [COLORS.RED; COLORS.GREEN; COLORS.BLUE; COLORS.WHITE; COLORS.BLACK]) in
  palette_wf p ∧ (100 < offset p) ∧ select p new_canvas no_answers (100, 40) = Ok (p, new_canvas, no_answers).
Proof.
  intros p.
  assert (Hwf : palette_wf p) by palette_wf_compute.
  assert (Hx : 100 < offset p) by (simpl; lia).
  split_and!; [exact Hwf | exact Hx | exact (select_left_of_palette p new_canvas no_answers (100, 40) Hwf Hx)].
Defined.

Lemma palette_refines_contract_witness :
  let p := bind_canvas (new_palette 824 [COLORS.RED; COLORS.GREEN; COLORS.BLUE; COLORS.WHITE; COLORS.BLACK]) in
  palette_wf p ∧ PaletteSpec.click (pabs p) (pabs (add_color p (10, 20, 30))) ∧
  PaletteSpec.colour (pabs p) = Some COLORS.RED.
Proof.
  intros p.
  assert (Hwf : palette_wf p) by palette_wf_compute.
  destruct (proj2 (palette_refines_contract (D := Script) p) Hwf) as ((c & Hc & Hcol) & Hadd & Hsel).
  split_and!; [exact Hwf | |].
  - apply (Hsel new_canvas (mkScript [] [Some (10, 20, 30)] [] []) (830, 5) (add_color p (10, 20, 30))
              new_canvas no_answers).
    unfold select. replace (collidepoint (button_add p) (830, 5)) with true by reflexivity. reflexivity.
  - rewrite Hcol. vm_compute in Hc. injection Hc as <-. reflexivity.
Defined.

Lemma palette_entries_below_window_witness :
  let p := bind_canvas (new_palette 824 [COLORS.RED; COLORS.GREEN; COLORS.BLUE; COLORS.WHITE; COLORS.BLACK]) in
  palette_wf p ∧ (40 < 576) ∧
  ∃ p' cv' d', select p new_canvas no_answers (890, 40) = Ok (p', cv', d') ∧
    (selected p' = selected p ∨
     ∃ b j c, pblocks p !! selected p' = Some b ∧ b = mkBlock (palette_rect (offset p) j) c ∧ (j < 51)%nat).
Proof.
  intros p. assert (Hwf : palette_wf p) by palette_wf_compute.
  assert (Hy : 40 < 576) by lia.
  destruct (select_ok p new_canvas no_answers (890, 40)) as [[[p' cv'] d'] E]; [reflexivity|].
  split_and!; [exact Hwf | exact Hy |]. exists p', cv', d'. split; [exact E|].
  exact (palette_entries_below_window p new_canvas no_answers (890, 40) p' cv' d' Hwf Hy E).
Defined.
