(* ===== verification/App.v ===== *)
(** * The event loop of taint.py (lines 182-232)

    The module-level program creates the canvas and the palette, binds
    them, and runs [while run:] frames.  A frame handles the queued events
    (quit, Ctrl+Q, Ctrl+S, G, left click), then paints the canvas under
    the mouse if the left button is held, then redraws the canvas and the
    window.  The state [App] holds the loop flag [run], the canvas, the
    palette, the files written by [pygame.image.save] (in order) and the
    drawing calls of the last presented frame.  What one frame reads from
    pygame (the event queue, the modifier keys, the mouse) is a
    [FrameInput]; the dialogs are the [Dialogs] interface.  A frame
    raises [SaveError] when Ctrl+S names a file that cannot be written
    and [ValueError] when it hands pygame a colour that is not a byte
    triple ([render_checked]); the theorems show when neither happens
    ([env_ok]) and that both do happen otherwise. *)

From stdpp Require Import relations.
From S2P Require Import Prelude Surface Dialogs Canvas Palette.

Local Open Scope Z_scope.

(** [window_width, window_height = 1024, 576] *)
Definition window_width : Z := 1024.
Definition window_height : Z := 576.

(** The pygame constants the loop tests (SDL2 key codes and modifier
    masks: [KMOD_CTRL = KMOD_LCTRL | KMOD_RCTRL]). *)
Definition K_g : Z := 103.
Definition K_q : Z := 113.
Definition K_s : Z := 115.
Definition KMOD_LCTRL : Z := 64.
Definition KMOD_RCTRL : Z := 128.
Definition KMOD_CTRL : Z := Z.lor KMOD_LCTRL KMOD_RCTRL.
Definition BUTTON_LEFT : Z := 1.

(** The events the loop distinguishes; every other event type is [OTHER]. *)
Inductive Event :=
  | QUIT
  | KEYDOWN (key : Z)
  | MOUSEBUTTONDOWN (button : Z) (pos : point)
  | OTHER.

(** What a frame reads from pygame: [pygame.event.get()], the modifier
    state [pygame.key.get_mods()] while the events are handled,
    [pygame.mouse.get_pressed()[0]] and [pygame.mouse.get_pos()]. *)
Record FrameInput := mkFrameInput {
  events : list Event;
  mods : Z;
  mouse_left : bool;
  mouse_pos : point;
}.

Record App := mkApp {
  run : bool;
  canvas : Canvas;
  palette : Palette;
  saved : list (string * Surface);
  display : list DrawCmd;
}.

Definition set_run (a : App) (b : bool) : App :=
  mkApp b (canvas a) (palette a) (saved a) (display a).
Definition set_canvas (a : App) (cv : Canvas) : App :=
  mkApp (run a) cv (palette a) (saved a) (display a).
Definition set_palette_canvas (a : App) (p : Palette) (cv : Canvas) : App :=
  mkApp (run a) cv p (saved a) (display a).
Definition set_display (a : App) (l : list DrawCmd) : App :=
  mkApp (run a) (canvas a) (palette a) (saved a) l.

(** [pygame.image.save(canvas, filename)]: the canvas surface as it is. *)
Definition image_save (a : App) (filename : string) : App :=
  mkApp (run a) (canvas a) (palette a) (saved a ++ [(filename, surf (canvas a))]) (display a).

(** Lines 189-194: [canvas = Canvas()], [palette = Palette(...)],
    [palette.bind_canvas(canvas)], [run = True]. *)
Definition initial_app : App :=
  mkApp true new_canvas
    (bind_canvas (new_palette (window_width - 200)
                    [COLORS.RED; COLORS.GREEN; COLORS.BLUE; COLORS.WHITE; COLORS.BLACK]))
    [] [].

(** [pygame.key.get_mods() & pygame.KMOD_CTRL] is truthy. *)
Definition ctrl_held (m : Z) : bool := bool_decide (Z.land m KMOD_CTRL ≠ 0).

Section loop.
Context `{Dialogs D}.

(** One iteration of [for event in pygame.event.get():] (lines 198-215). *)
Definition handle_event (m : Z) (st : App * D) (e : Event) : res (App * D) :=
  let '(a, d) := st in
  match e with
  | QUIT => Ok (set_run a false, d)
  | KEYDOWN k =>
      if bool_decide (k = K_q) && ctrl_held m then Ok (set_run a false, d)
      else if bool_decide (k = K_s) && ctrl_held m then
        let '(filename, d') := prompt_file d in
        if bool_decide (filename = ""%string) then Ok (a, d')
        else if file_writable d' filename then Ok (image_save a filename, d')
        else Err SaveError
      else if bool_decide (k = K_g) then Ok (set_canvas a (toggle_grid (canvas a)), d)
      else Ok (a, d)
  | MOUSEBUTTONDOWN b pos =>
      if bool_decide (b = BUTTON_LEFT) then
        '(p', cv', d') ← select (palette a) (canvas a) d pos;
        Ok (set_palette_canvas a p' cv', d')
      else Ok (a, d)
  | OTHER => Ok (a, d)
  end.

Fixpoint handle_events (m : Z) (es : list Event) (st : App * D) : res (App * D) :=
  match es with
  | [] => Ok st
  | e :: es' => st' ← handle_event m st e; handle_events m es' st'
  end.

(** Lines 217-222: paint while the left button is held over the canvas. *)
Definition mouse_paint (a : App) (i : FrameInput) : res App :=
  if mouse_left i && collidepoint (get_rect (canvas a)) (mouse_pos i) then
    c ← color (palette a); Ok (set_canvas a (paint (canvas a) (mouse_pos i) c))
  else Ok a.

(** Lines 224-229: redraw the canvas, then the window, and present it. *)
Definition render (a : App) : App :=
  let cv := update (canvas a) in
  set_display (set_canvas a cv)
    ([Fill (63, 63, 63)] ++ draw (palette a) ++ [Blit (surf cv) (0, 0)]).

(** pygame raises [ValueError] when one of the frame's drawing calls, on
    the canvas ([Canvas.update]) or on the screen, gets a colour that is
    not a byte triple. *)
Definition pygame_draw_ok (a : App) : bool :=
  bool_decide (Forall (λ b, rgb_valid (bcolor b)) (blocks (canvas a)) ∧ Forall cmd_valid (display a)).

(** Lines 224-229 with pygame's check of the colours. *)
Definition render_checked (a : App) : res App :=
  let a' := render a in if pygame_draw_ok a' then Ok a' else Err ValueError.

(** The body of [while run:] ([clock.tick(60)] only waits). *)
Definition frame (a : App) (d : D) (i : FrameInput) : res (App * D) :=
  '(a1, d1) ← handle_events (mods i) (events i) (a, d);
  a2 ← mouse_paint a1 i;
  a3 ← render_checked a2;
  Ok (a3, d1).

(** [while run:] over the frames of a finite input; the test of [run]
    comes before each frame. *)
Fixpoint main_loop (inputs : list FrameInput) (a : App) (d : D) : res (App * D) :=
  match inputs with
  | [] => Ok (a, d)
  | i :: inputs' =>
      if run a then '(a', d') ← frame a d i; main_loop inputs' a' d' else Ok (a, d)
  end.

(** The loop as a transition system: one step is one frame. *)
Inductive step : App * D → App * D → Prop :=
  | step_frame a d i a' d' :
      run a = true → frame a d i = Ok (a', d') → step (a, d) (a', d').

Definition reachable (d0 : D) (st : App * D) : Prop := rtc step (initial_app, d0) st.
End loop.

(** Frame inputs used by the concrete scenarios below: a left click, the
    left button held at a point, and a batch of key presses. *)
Definition click (pos : point) : FrameInput := mkFrameInput [MOUSEBUTTONDOWN BUTTON_LEFT pos] 0 false (0, 0).
Definition drag (pos : point) : FrameInput := mkFrameInput [] 0 true pos.
Definition keys (ks : list Z) (m : Z) : FrameInput := mkFrameInput (KEYDOWN <$> ks) m false (0, 0).

(** The shape of the running program's state: a well-formed canvas, a
    well-formed palette bound to it, and every written image 480x480. *)
Definition app_wf (a : App) : Prop :=
  canvas_wf (canvas a) ∧ palette_wf (palette a) ∧ pcanvas_bound (palette a) = true ∧
  (∀ fn s, (fn, s) ∈ saved a → sw s = N * SIZE ∧ sh s = N * SIZE).

(** Every colour of the palette (entries, blocks, highlight) and of the
    canvas blocks is a byte triple. *)
Definition palette_colours_valid (p : Palette) : Prop :=
  Forall rgb_valid (colors p) ∧ Forall (λ b, rgb_valid (bcolor b)) (pblocks p) ∧
  rgb_valid (color_selected p).

Definition canvas_colours_valid (cv : Canvas) : Prop :=
  Forall (λ b, rgb_valid (bcolor b)) (blocks cv).

Definition app_colours (a : App) : Prop :=
  palette_colours_valid (palette a) ∧ canvas_colours_valid (canvas a).

(** The invariant under which a frame cannot raise: the shape, and
    colours pygame accepts. *)
Definition app_inv (a : App) : Prop := app_wf a ∧ app_colours a.

#[export] Instance app_colours_dec a : Decision (app_colours a).
Proof. unfold app_colours, palette_colours_valid, canvas_colours_valid. apply _. Defined.

(** ** The invariant is kept by every part of a frame *)

Create HintDb app.

Lemma initial_app_wf : app_wf initial_app.
Proof.
  split_and!; [apply new_canvas_wf | apply bind_canvas_wf, new_palette_wf; done | done |].
  intros fn s Hin. cbn in Hin. set_solver.
Qed.

Lemma image_save_wf a fn : app_wf a → app_wf (image_save a fn).
Proof.
  intros (Hc & Hp & Hb & Hs). split_and!; try done. cbn.
  intros fn' s [Hin|Hin]%elem_of_app; [by apply (Hs fn')|].
  apply list_elem_of_singleton in Hin. simplify_eq.
  destruct Hc as (Hw & Hh & _). by split.
Qed.

Lemma set_canvas_wf a cv : app_wf a → canvas_wf cv → app_wf (set_canvas a cv).
Proof. intros (Hc & Hp & Hb & Hs) Hcv. by split_and!. Qed.

Lemma render_wf `{Dialogs D} a : app_wf a → app_wf (render a).
Proof. intros Hwf. apply (set_canvas_wf a); [done|]. apply update_wf, Hwf. Qed.

#[export] Hint Resolve image_save_wf set_canvas_wf render_wf : app.

(** ** Colours *)

(** Closes a validity goal on constants by evaluating its decision. *)
Ltac decide_colours := apply (bool_decide_unpack _); vm_compute; reflexivity.

Lemma white_valid : rgb_valid COLORS.WHITE.
Proof. decide_colours. Qed.

Lemma color_valid p c : palette_colours_valid p → color p = Ok c → rgb_valid c.
Proof.
  intros (_ & Hb & _). unfold color. destruct (pblocks p !! selected p) eqn:E; [|done].
  intros [= <-]. by eapply (Forall_lookup_1 (λ b, rgb_valid (bcolor b))).
Qed.

Lemma layout_colours off cs : Forall rgb_valid cs → Forall (λ b, rgb_valid (bcolor b)) (layout off cs).
Proof.
  intros Hcs. apply Forall_lookup. intros i b. rewrite layout_lookup.
  destruct (cs !! i) eqn:E; intros [= <-]. by eapply Forall_lookup_1.
Qed.

Lemma add_color_colours p c :
  palette_colours_valid p → rgb_valid c → palette_colours_valid (add_color p c).
Proof.
  intros (Hc & Hb & Hs) Hv. assert (Forall rgb_valid (colors p ++ [c])) by (apply Forall_app; auto).
  split_and!; [done| |done]. rewrite add_color_blocks. apply Forall_app. split; [done|].
  by apply layout_colours.
Qed.

Lemma clear_colours cv : canvas_colours_valid (clear cv).
Proof. apply Forall_fmap, Forall_forall. intros. apply white_valid. Qed.

Lemma paint_colours cv pos c :
  canvas_colours_valid cv → rgb_valid c → canvas_colours_valid (paint cv pos c).
Proof. intros Hcv Hc. by apply Forall_update_first. Qed.

Lemma draw_colours p : palette_colours_valid p → Forall cmd_valid (draw p).
Proof.
  intros (_ & Hb & Hs). unfold draw. rewrite !Forall_app. split_and!.
  - apply Forall_concat_imap. intros i b Hi. constructor; [by eapply (Forall_lookup_1 (λ b, rgb_valid (bcolor b)))|].
    case_bool_decide; by repeat constructor.
  - repeat constructor; apply white_valid.
  - repeat constructor; apply white_valid.
Qed.

Lemma draw_colours_inv p : palette_wf p → Forall cmd_valid (draw p) → palette_colours_valid p.
Proof.
  intros (_ & _ & _ & (pre & Hbl & _) & Hsel) Hd. unfold draw in Hd. apply Forall_app in Hd as [Hd _].
  assert (Hblk : ∀ i b, pblocks p !! i = Some b → rgb_valid (bcolor b)).
  { intros i b Hi. pose proof (Forall_concat_imap_inv _ _ _ _ _ Hd Hi) as Hf.
    by apply Forall_cons in Hf as [Hf _]. }
  split_and!.
  - apply Forall_lookup. intros j c Hj.
    apply (Hblk (length pre + j)%nat (mkBlock (palette_rect (offset p) j) c)).
    rewrite Hbl, lookup_app_r, layout_lookup by lia.
    replace (length pre + j - length pre)%nat with j by lia. by rewrite Hj.
  - by apply Forall_lookup.
  - destruct (lookup_lt_is_Some_2 (pblocks p) (selected p) Hsel) as [b Hb].
    pose proof (Forall_concat_imap_inv _ _ _ _ _ Hd Hb) as Hf. cbv beta in Hf.
    rewrite bool_decide_true in Hf by done.
    apply Forall_cons in Hf as [_ Hf]. by apply Forall_cons in Hf as [Hf _].
Qed.


Lemma mouse_paint_run `{Dialogs D} a i a' :
  mouse_paint a i = Ok a' → run a' = run a ∧ saved a' = saved a ∧ palette a' = palette a.
Proof.
  unfold mouse_paint. case_match; [|by intros [= <-]].
  destruct (color (palette a)); cbn; [|done]. by intros [= <-].
Qed.

Section loop_props.
Context `{Dialogs D}.

Lemma handle_event_wf m a d e a' d' :
  app_wf a → handle_event m (a, d) e = Ok (a', d') → app_wf a'.
Proof.
  intros Hwf. destruct e as [|k|b pos|]; cbn [handle_event].
  - intros [= <- _]. exact Hwf.
  - case_match; [intros [= <- _]; exact Hwf|].
    case_match.
    { destruct (prompt_file d) as [fn d2]. repeat case_match; intros; simplify_eq; eauto with app. }
    case_match; intros [= <- _]; [|exact Hwf].
    apply set_canvas_wf; [done|]. apply toggle_grid_wf, Hwf.
  - case_match; [|intros [= <- _]; exact Hwf].
    destruct (select (palette a) (canvas a) d pos) as [[[p' cv'] d2]|] eqn:E;
      cbn; intros; simplify_eq.
    destruct Hwf as (Hc & Hp & Hb & Hs). destruct (select_bound _ _ _ _ _ _ _ E) as [Hb' _].
    split_and!; cbn; try congruence.
    + destruct (select_canvas _ _ _ _ _ _ _ E) as [-> | ->]; auto using clear_wf.
    + by eapply select_wf.
    + exact Hs.
  - intros [= <- _]. exact Hwf.
Qed.

Lemma handle_events_wf m es a d a' d' :
  app_wf a → handle_events m es (a, d) = Ok (a', d') → app_wf a'.
Proof.
  revert a d. induction es as [|e es IH]; intros a d Hwf; cbn [handle_events];
    [by intros [= <- _]|].
  destruct (handle_event m (a, d) e) as [[a1 d1]|] eqn:E; cbn [mbind res_bind]; [|done].
  apply IH. by eapply handle_event_wf.
Qed.

Lemma mouse_paint_wf a i a' : app_wf a → mouse_paint a i = Ok a' → app_wf a'.
Proof.
  intros Hwf. unfold mouse_paint. case_match; [|by intros [= <-]].
  destruct (color (palette a)); cbn; [|done]. intros [= <-].
  apply set_canvas_wf; [done|]. apply paint_wf, Hwf.
Qed.

Lemma mouse_paint_ok a i : app_wf a → ∃ a', mouse_paint a i = Ok a'.
Proof.
  intros Hwf. unfold mouse_paint. case_match; [|eauto].
  destruct (palette_color_ok (palette a)) as (c & -> & _); [apply Hwf|]. cbn. eauto.
Qed.

(** What the frame hands to pygame has valid colours exactly when the
    palette and the canvas have. *)
Lemma render_checked_ok a a' :
  palette_wf (palette a) →
  render_checked a = Ok a' ↔ a' = render a ∧ app_colours a.
Proof.
  intros Hp. unfold render_checked, pygame_draw_ok.
  assert (Hdisp : Forall cmd_valid (display (render a)) ↔ palette_colours_valid (palette a)).
  { cbn [render display set_display set_canvas]. rewrite !Forall_app. split.
    - intros (_ & ? & _). by apply draw_colours_inv.
    - intros. split_and!; [repeat constructor; decide_colours | by apply draw_colours | by repeat constructor]. }
  case_bool_decide as Hok; split.
  - intros [= <-]. destruct Hok as [Hc Hd]. split; [done|]. split; [by apply Hdisp | exact Hc].
  - by intros (-> & _).
  - done.
  - intros (-> & Hpv & Hcv). exfalso. apply Hok. split; [exact Hcv | by apply Hdisp].
Qed.

Lemma render_checked_display a a' : render_checked a = Ok a' → Forall cmd_valid (display a').
Proof. unfold render_checked, pygame_draw_ok. case_bool_decide as Hok; [|done]. intros [= <-]. apply Hok. Qed.

Lemma mouse_paint_colours a i a' : app_colours a → mouse_paint a i = Ok a' → app_colours a'.
Proof.
  intros (Hp & Hcv). unfold mouse_paint. case_match; [|by intros [= <-]].
  destruct (color (palette a)) eqn:E; cbn [mbind res_bind]; [|done]. intros [= <-].
  split; [done|]. apply paint_colours; [done|].
  first [by eapply color_valid | by destruct Hp as (_ & _ & ?)].
Qed.

Lemma frame_Ok a d i a' d' :
  frame a d i = Ok (a', d') →
  ∃ a1 a2, handle_events (mods i) (events i) (a, d) = Ok (a1, d') ∧ mouse_paint a1 i = Ok a2 ∧
    render_checked a2 = Ok a' ∧ a' = render a2.
Proof.
  unfold frame. destruct (handle_events _ _ _) as [[a1 d1]|] eqn:E1; cbn [mbind res_bind]; [|done].
  destruct (mouse_paint a1 i) as [a2|] eqn:E2; cbn [mbind res_bind]; [|done].
  destruct (render_checked a2) as [a3|] eqn:E3; cbn [mbind res_bind]; [|done]. intros [= <- <-].
  exists a1, a2. split_and!; [done..|]. revert E3. unfold render_checked. by case_match; intros [= <-].
Qed.

(** [render_checked] raises exactly when the redrawn state has a colour
    that is not a byte triple. *)
Lemma render_checked_eq a :
  palette_wf (palette a) →
  render_checked a = if bool_decide (app_colours (render a)) then Ok (render a) else Err ValueError.
Proof.
  intros Hwf. case_bool_decide as Hc; [by apply render_checked_ok|].
  destruct (render_checked a) as [a'|] eqn:E.
  - by apply render_checked_ok in E as [-> ?].
  - revert E. unfold render_checked. case_match; by intros [= <-].
Qed.

(** A frame that returns keeps the shape, and pygame's colour check makes
    the colours of the state it returns valid. *)
Lemma frame_inv a d i a' d' : app_wf a → frame a d i = Ok (a', d') → app_inv a'.
Proof.
  intros Hwf. unfold frame.
  destruct (handle_events (mods i) (events i) (a, d)) as [[a1 d1]|] eqn:E1; cbn; [|done].
  destruct (mouse_paint a1 i) as [a2|] eqn:E2; cbn; [|done].
  destruct (render_checked a2) as [a3|] eqn:E3; cbn; [|done]. intros [= <- _].
  assert (Hw2 : app_wf a2) by (eapply mouse_paint_wf, E2; eapply handle_events_wf, E1; done).
  apply render_checked_ok in E3 as [-> ?]; [|apply Hw2]. split; [by apply render_wf | done].
Qed.

Lemma frame_wf a d i a' d' : app_wf a → frame a d i = Ok (a', d') → app_wf a'.
Proof. intros Hwf E. apply (frame_inv _ _ _ _ _ Hwf E). Qed.

(** The palette alone stays well formed, and the colours of a returned
    frame are valid, whatever the canvas binding. *)
Lemma handle_events_palette_wf m es a d a' d' :
  palette_wf (palette a) → handle_events m es (a, d) = Ok (a', d') → palette_wf (palette a').
Proof.
  revert a d. induction es as [|e es IH]; intros a d Hp; cbn [handle_events]; [by intros [= <- _]|].
  destruct (handle_event m (a, d) e) as [[a1 d1]|] eqn:E; cbn [mbind res_bind]; [|done].
  apply IH. revert E. destruct e as [|k|b pos|]; cbn [handle_event]; [by intros [= <- _]| | |by intros [= <- _]].
  - destruct (prompt_file d). repeat case_match; intros; by simplify_eq.
  - case_bool_decide; [|by intros [= <- _]].
    destruct (select _ _ _ _) as [[[p' cv'] d2]|] eqn:Es; cbn [mbind res_bind]; [|done].
    intros [= <- _]. by eapply select_wf.
Qed.

Lemma frame_palette_colours a d i a' d' :
  palette_wf (palette a) → frame a d i = Ok (a', d') → palette_wf (palette a') ∧ app_colours a'.
Proof.
  intros Hp (a1 & a2 & E1 & E2 & E3 & ->)%frame_Ok.
  destruct (mouse_paint_run _ _ _ E2) as (_ & _ & Hpal).
  assert (Hp2 : palette_wf (palette a2)) by (rewrite Hpal; by eapply handle_events_palette_wf).
  apply render_checked_ok in E3 as [_ ?]; [|done]. by split.
Qed.
End loop_props.

(** ** Frames that do not raise

    Under a user's side that answers valid colours and only names files
    that can be written ([env_ok]), no part of a frame raises. *)

Section dialog_colours.
Context `{Dialogs D} (P : D → Prop) (HP : dialog_inv P).

Lemma select_colours p cv d pos p' cv' d' :
  P d → palette_colours_valid p → canvas_colours_valid cv → select p cv d pos = Ok (p', cv', d') →
  palette_colours_valid p' ∧ canvas_colours_valid cv' ∧ P d'.
Proof.
  intros Hd Hp Hcv. destruct (HP d Hd) as (_ & Hcol & Hclr). unfold select.
  destruct (collidepoint (button_add p) pos).
  { specialize (Hcol _ _ (surjective_pairing _)).
    destruct (prompt_color d) as [oc d1]. destruct Hcol as [Hd1 Hv].
    destruct oc as [c|]; intros [= <- <- <-]; split_and!; auto using add_color_colours. }
  destruct (collidepoint (button_clear p) pos).
  { specialize (Hclr _ _ (surjective_pairing _)).
    destruct (prompt_clear d) as [b d1].
    destruct b; [destruct (pcanvas_bound p)|]; intros; simplify_eq; auto using clear_colours. }
  intros [= <- <- <-]. by split_and!.
Qed.

Lemma handle_event_colours m a d e a' d' :
  P d → app_colours a → handle_event m (a, d) e = Ok (a', d') → app_colours a' ∧ P d'.
Proof.
  intros Hd (Hp & Hcv). destruct (HP d Hd) as (Hfile & _ & _).
  destruct e as [|k|b pos|]; cbn [handle_event].
  - intros [= <- <-]. by split_and!.
  - specialize (Hfile _ _ (surjective_pairing _)).
    repeat case_match; intros; simplify_eq; by split_and!.
  - case_bool_decide; [|intros [= <- <-]; by split_and!].
    destruct (select _ _ _ _) as [[[p' cv'] d1]|] eqn:E; cbn [mbind res_bind]; [|done].
    intros [= <- <-]. apply select_colours in E as (? & ? & ?); [by split_and!|done..].
  - intros [= <- <-]. by split_and!.
Qed.

Lemma handle_events_colours m es a d a' d' :
  P d → app_colours a → handle_events m es (a, d) = Ok (a', d') → app_colours a' ∧ P d'.
Proof.
  revert a d. induction es as [|e es IH]; intros a d Hd Ha; cbn [handle_events]; [by intros [= <- <-]|].
  destruct (handle_event m (a, d) e) as [[a1 d1]|] eqn:E; cbn [mbind res_bind]; [|done].
  apply handle_event_colours in E as [??]; [|done..]. by apply IH.
Qed.

Lemma frame_dialog a d i a' d' : P d → app_colours a → frame a d i = Ok (a', d') → P d'.
Proof.
  intros Hd Ha. unfold frame.
  destruct (handle_events _ _ _) as [[a1 d1]|] eqn:E1; cbn [mbind res_bind]; [|done].
  apply handle_events_colours in E1 as [_ Hd1]; [|done..].
  destruct (mouse_paint a1 i) as [a2|]; cbn [mbind res_bind]; [|done].
  destruct (render_checked a2); cbn [mbind res_bind]; [|done]. intros; by simplify_eq.
Qed.
End dialog_colours.

Section env.
Context `{Dialogs D} (P : D → Prop) (HE : env_ok P).

Lemma handle_event_ok m a d e : app_wf a → P d → ∃ st, handle_event m (a, d) e = Ok st.
Proof.
  intros (_ & _ & Hb & _) Hd. destruct e as [|k|b pos|]; cbn [handle_event]; [eauto| |eauto|eauto].
  - destruct (prompt_file d) as [fn d2] eqn:Ef. pose proof (proj2 HE d fn d2 Hd Ef) as Hw.
    cbv beta iota. case_match; [eauto|]. case_match; [|case_match; eauto].
    destruct (decide (fn = ""%string)) as [Hfn|Hfn]; [rewrite bool_decide_true by done; eauto|].
    rewrite bool_decide_false, (Hw Hfn) by done. by eexists.
  - case_match; [|eauto].
    destruct (select_ok (palette a) (canvas a) d pos Hb) as [[[p' cv'] d2] ->]. cbn. eauto.
Qed.

Lemma handle_events_ok m es a d :
  app_inv a → P d → ∃ a' d', handle_events m es (a, d) = Ok (a', d') ∧ app_inv a' ∧ P d'.
Proof.
  revert a d. induction es as [|e es IH]; intros a d [Hwf Hc] Hd; cbn [handle_events];
    [eexists _, _; split_and!; done|].
  destruct (handle_event_ok m a d e Hwf Hd) as [[a1 d1] E]. rewrite E. cbn [mbind res_bind].
  destruct (handle_event_colours P (proj1 HE) _ _ _ _ _ _ Hd Hc E).
  apply IH; [split; [by eapply handle_event_wf|done] | done].
Qed.

Lemma frame_ok a d i : app_inv a → P d → ∃ a' d', frame a d i = Ok (a', d') ∧ P d'.
Proof.
  intros Ha Hd. unfold frame.
  destruct (handle_events_ok (mods i) (events i) a d Ha Hd) as (a1 & d1 & -> & [Hw1 Hc1] & Hd1).
  cbn [mbind res_bind].
  destruct (mouse_paint_ok a1 i Hw1) as [a2 E2]. rewrite E2. cbn [mbind res_bind].
  rewrite (proj2 (render_checked_ok a2 (render a2) (proj1 (proj2 (mouse_paint_wf _ _ _ Hw1 E2))))
             (conj eq_refl (mouse_paint_colours _ _ _ Hc1 E2))).
  cbn [mbind res_bind]. eauto.
Qed.
End env.

(** ** What a frame changes *)

Section frame_facts.
Context `{Dialogs D}.

(** Event handling never redraws the canvas surface, and every file it
    writes holds that surface. *)
Lemma handle_event_saved m a d e a' d' :
  handle_event m (a, d) e = Ok (a', d') →
  surf (canvas a') = surf (canvas a) ∧
  ∃ l, saved a' = saved a ++ l ∧ ∀ fn s, (fn, s) ∈ l → s = surf (canvas a).
Proof.
  assert (Hnil : saved a = saved a ++ []) by by rewrite app_nil_r.
  destruct e as [|k|b pos|]; cbn [handle_event].
  - intros [= <- _]. split; [done|]. exists []. split; [done|set_solver].
  - repeat case_match; intros [= <- _]; split; try done; try (exists []; split; [done|set_solver]).
    exists [(s, surf (canvas a))]. split; [done|]. intros fn s' ?%list_elem_of_singleton. by simplify_eq.
  - case_match; [|intros [= <- _]; split; [done|]; exists []; split; [done|set_solver]].
    destruct (select (palette a) (canvas a) d pos) as [[[p' cv'] d2]|] eqn:E;
      cbn; intros; simplify_eq.
    split; [|exists []; split; [done|set_solver]].
    by destruct (select_canvas _ _ _ _ _ _ _ E) as [-> | ->].
  - intros [= <- _]. split; [done|]. exists []. split; [done|set_solver].
Qed.

Lemma handle_events_saved m es a d a' d' :
  handle_events m es (a, d) = Ok (a', d') →
  surf (canvas a') = surf (canvas a) ∧
  ∃ l, saved a' = saved a ++ l ∧ ∀ fn s, (fn, s) ∈ l → s = surf (canvas a).
Proof.
  revert a d. induction es as [|e es IH]; intros a d; cbn [handle_events].
  { intros [= <- _]. split; [done|]. exists []. rewrite app_nil_r. split; [done|set_solver]. }
  destruct (handle_event m (a, d) e) as [[a1 d1]|] eqn:E; cbn [mbind res_bind]; [|done].
  intros (Hs2 & l2 & Hl2 & Hin2)%IH.
  destruct (handle_event_saved _ _ _ _ _ _ E) as (Hs1 & l1 & Hl1 & Hin1).
  split; [congruence|]. exists (l1 ++ l2). rewrite Hl2, Hl1, app_assoc. split; [done|].
  intros fn s [?|?]%elem_of_app; [by eapply Hin1|]. rewrite <-Hs1. by eapply Hin2.
Qed.

(** Nothing in a frame sets [run] back to [True]; [QUIT] clears it. *)
Lemma handle_event_run m a d e a' d' :
  handle_event m (a, d) e = Ok (a', d') → (run a' = false ↔ run a = false ∨ e = QUIT ∨
    ∃ k, e = KEYDOWN k ∧ k = K_q ∧ ctrl_held m = true).
Proof.
  destruct e as [|k|b pos|]; cbn [handle_event].
  - intros [= <- _]. naive_solver.
  - destruct (bool_decide (k = K_q) && ctrl_held m) eqn:Hq.
    + intros [= <- _]. apply andb_true_iff in Hq as [Hq%bool_decide_eq_true Hc]. naive_solver.
    + repeat case_match; intros [= <- _]; cbn; split; try tauto;
        (intros [?|[?|(k' & ? & -> & Hc)]]; [done|done|]); simplify_eq;
        rewrite bool_decide_true, Hc in Hq by done; done.
  - case_match; [|intros [= <- _]; naive_solver].
    destruct (select (palette a) (canvas a) d pos) as [[[p' cv'] d2]|]; cbn; intros; simplify_eq.
    cbn. naive_solver.
  - intros [= <- _]. naive_solver.
Qed.

Lemma handle_events_run m es a d a' d' :
  handle_events m es (a, d) = Ok (a', d') → (run a = false ∨ QUIT ∈ es) → run a' = false.
Proof.
  revert a d. induction es as [|e es IH]; intros a d; cbn [handle_events].
  { intros [= <- _] [?|?%elem_of_nil]; [done|done]. }
  destruct (handle_event m (a, d) e) as [[a1 d1]|] eqn:E; cbn [mbind res_bind]; [|done].
  intros Hes Hq. apply (IH a1 d1 Hes).
  pose proof (handle_event_run _ _ _ _ _ _ E) as Hr.
  destruct Hq as [Hq|[<-|Hq]%elem_of_cons]; [left; apply Hr; auto|left; apply Hr; auto|by right].
Qed.
End frame_facts.


Lemma frame_run_quit `{Dialogs D} a d i a' d' :
  frame a d i = Ok (a', d') → QUIT ∈ events i → run a' = false.
Proof.
  intros (a1 & a2 & E1 & E2 & _ & ->)%frame_Ok Hq.
  change (run (render a2)) with (run a2). destruct (mouse_paint_run _ _ _ E2) as (-> & _ & _). eapply handle_events_run; eauto.
Qed.

(** ** The canvas picture, frame by frame *)

Section picture.
Context `{Dialogs D}.

Lemma handle_event_picture cs m a d e a' d' :
  app_wf a → handle_event m (a, d) e = Ok (a', d') →
  colors (palette a) ⊆ colors (palette a') ∧ rtc (Picture.edit cs) (abs (canvas a)) (abs (canvas a')).
Proof.
  intros (Hc & _). destruct e as [|k|b pos|]; cbn [handle_event].
  - by intros [= <- _].
  - repeat case_match; intros [= <- _]; try done.
    split; [done|]. cbn. destruct (abs_toggle_grid_cases (canvas a) Hc) as [-> | ->]; [|done].
    apply rtc_once. constructor.
  - case_bool_decide; [|by intros [= <- _]].
    destruct (select (palette a) (canvas a) d pos) as [[[p' cv'] d2]|] eqn:E; cbn [mbind res_bind]; [|done].
    intros [= <- _]. cbn. split; [by eapply select_colors|].
    destruct (select_canvas _ _ _ _ _ _ _ E) as [-> | ->]; [done|].
    rewrite abs_clear by done. apply rtc_once. constructor.
  - by intros [= <- _].
Qed.

Lemma handle_events_picture cs m es a d a' d' :
  app_wf a → handle_events m es (a, d) = Ok (a', d') →
  colors (palette a) ⊆ colors (palette a') ∧ rtc (Picture.edit cs) (abs (canvas a)) (abs (canvas a')).
Proof.
  revert a d. induction es as [|e es IH]; intros a d Hwf; cbn [handle_events]; [by intros [= <- _]|].
  destruct (handle_event m (a, d) e) as [[a1 d1]|] eqn:E; cbn [mbind res_bind]; [|done].
  intros E2. destruct (handle_event_picture cs _ _ _ _ _ _ Hwf E) as [Hs1 Hr1].
  destruct (IH a1 d1) as [Hs2 Hr2]; [by eapply handle_event_wf|done|].
  split; [set_solver|]. by eapply rtc_trans.
Qed.

(** A frame changes the canvas picture by edits that paint with colours
    of the palette it ends with, and only adds colours. *)
Lemma frame_picture a d i a' d' :
  app_wf a → frame a d i = Ok (a', d') →
  colors (palette a) ⊆ colors (palette a') ∧
  rtc (Picture.edit (colors (palette a'))) (abs (canvas a)) (abs (canvas a')).
Proof.
  intros Hwf (a1 & a2 & E1 & E2 & _ & ->)%frame_Ok.
  pose proof (handle_events_wf _ _ _ _ _ _ Hwf E1) as Hwf1.
  assert (Hp : palette a2 = palette a1 ∧
               rtc (Picture.edit (colors (palette a1))) (abs (canvas a1)) (abs (canvas a2))).
  { revert E2. unfold mouse_paint. case_match; [|by intros [= <-]].
    destruct (palette_color_ok (palette a1)) as (c & Ec & Hc); [apply Hwf1|].
    rewrite Ec. intros [= <-]. split; [done|]. cbn.
    destruct (abs_paint_cases (canvas a1) (mouse_pos i) c) as [-> | [q ->]]; [apply Hwf1|done|].
    apply rtc_once. by constructor. }
  destruct Hp as [Hp2 Hr2]. cbn [render palette canvas set_display set_canvas].
  rewrite Hp2. destruct (handle_events_picture (colors (palette a1)) _ _ _ _ _ _ Hwf E1) as [Hs1 Hr1].
  split; [done|]. by eapply rtc_trans.
Qed.

Lemma steps_picture st st' :
  rtc step st st' → app_wf st.1 →
  colors (palette st.1) ⊆ colors (palette st'.1) ∧
  rtc (Picture.edit (colors (palette st'.1))) (abs (canvas st.1)) (abs (canvas st'.1)).
Proof.
  induction 1 as [[a d]|[a d] [a1 d1] [a2 d2] Hs _ IH]; intros Hwf; [done|].
  inversion Hs as [? ? i ? ? _ E]; subst. cbn [fst] in *.
  destruct (frame_picture _ _ _ _ _ Hwf E) as [Hs1 Hr1].
  destruct IH as [Hs2 Hr2]; [by eapply frame_wf|].
  split; [set_solver|]. eapply rtc_trans; [|exact Hr2]. by eapply edit_mono.
Qed.
End picture.

(** ** Properties of the event loop *)

Section loop_theorems.
Context `{Dialogs D}.

(** C4: every state the program can reach (any events, any dialog
    answers) has a well-formed canvas, a well-formed palette bound to
    it, and only 480x480 images written. *)
Theorem reachable_wf d0 a d : reachable d0 (a, d) → app_wf a.
Proof.
  unfold reachable. intros Hr.
  cut (∀ st st', rtc step st st' → app_wf st.1 → app_wf st'.1);
    [intros Hc; apply (Hc _ _ Hr initial_app_wf)|].
  induction 1 as [|st1 st2 st3 Hs _ IH]; [done|]. intros Hwf.
  apply IH. destruct Hs. by eapply frame_wf.
Qed.

(** C3: the program raises no exception while the user's side only
    answers valid colours and names files that can be written
    ([env_ok]): from a state whose shape and colours are valid, the loop
    runs through any finite sequence of frames without [IndexError],
    pygame's [ValueError] or a failed [image.save], and keeps the
    invariant. *)
Theorem main_loop_never_fails (P : D → Prop) inputs a d :
  env_ok P → app_inv a → P d →
  ∃ a' d', main_loop inputs a d = Ok (a', d') ∧ app_inv a' ∧ P d'.
Proof.
  intros HE. revert a d. induction inputs as [|i inputs IH]; intros a d Ha Hd; cbn [main_loop]; [eauto|].
  destruct (run a); [|eauto].
  destruct (frame_ok P HE a d i Ha Hd) as (a1 & d1 & E & Hd1). rewrite E. cbn [mbind res_bind].
  apply IH; [by eapply frame_inv, E; apply Ha | done].
Qed.

(** C7: Ctrl+S writes the canvas surface as it was drawn at the end of
    the previous frame: changes made earlier in the same frame (a
    toggled grid, a cleared canvas) are not in the saved image. *)
Theorem frame_saves_previous_render a d i a' d' :
  frame a d i = Ok (a', d') →
  ∃ l, saved a' = saved a ++ l ∧ ∀ fn s, (fn, s) ∈ l → s = surf (canvas a).
Proof.
  intros (a1 & a2 & E1 & E2 & _ & ->)%frame_Ok.
  change (saved (render a2)) with (saved a2).
  destruct (handle_events_saved _ _ _ _ _ _ E1) as (_ & l & Hl & Hin).
  destruct (mouse_paint_run _ _ _ E2) as (_ & -> & _). eauto.
Qed.

(** C8: a quit event ends the loop only after its frame: the loop runs
    that frame in full (the later events of the batch included) and
    then stops, whatever input follows. *)
Theorem quit_ends_loop_after_frame a d i rest :
  QUIT ∈ events i →
  main_loop (i :: rest) a d = if run a then frame a d i else Ok (a, d).
Proof.
  intros Hq. cbn [main_loop]. destruct (run a); [|done].
  destruct (frame a d i) as [[a' d']|] eqn:E; cbn [mbind res_bind]; [|done].
  destruct rest; cbn; [done|]. by rewrite (frame_run_quit _ _ _ _ _ E Hq).
Qed.

(** C14: a frame paints after handling its events, with the colour
    selected at that point (always one of the palette's colours), and
    only when the left button is held over the canvas; it then hands the
    result to pygame, which raises [ValueError] exactly when a colour of
    the palette or of the canvas is not a byte triple. *)
Theorem frame_paint a d i a1 d1 :
  app_wf a → handle_events (mods i) (events i) (a, d) = Ok (a1, d1) →
  ∃ a' c, frame a d i = (if bool_decide (app_colours a') then Ok (a', d1) else Err ValueError) ∧
    color (palette a1) = Ok c ∧ c ∈ colors (palette a1) ∧
    palette a' = palette a1 ∧
    blocks (canvas a') = if mouse_left i && bool_decide (in_canvas (mouse_pos i))
                         then blocks (paint (canvas a1) (mouse_pos i) c) else blocks (canvas a1).
Proof.
  intros Hwf E. pose proof (handle_events_wf _ _ _ _ _ _ Hwf E) as Hwf1.
  destruct (palette_color_ok (palette a1)) as (c & Hc & Hin); [apply Hwf1|].
  assert (Hr : collidepoint (get_rect (canvas a1)) (mouse_pos i) = bool_decide (in_canvas (mouse_pos i))).
  { destruct Hwf1 as ((Hw & Hh & _) & _). unfold get_rect. rewrite Hw, Hh.
    apply eq_iff_eq_true. rewrite collidepoint_spec, bool_decide_eq_true.
    unfold in_canvas. simpl. split; lia. }
  destruct (mouse_paint_ok a1 i Hwf1) as [a2 E2].
  pose proof (render_checked_eq a2 (proj1 (proj2 (mouse_paint_wf _ _ _ Hwf1 E2)))) as E3.
  exists (render a2), c. split.
  { unfold frame. rewrite E. cbn [mbind res_bind]. rewrite E2. cbn [mbind res_bind].
    rewrite E3. by case_bool_decide. }
  split_and!; [done|done|..]; revert E2; unfold mouse_paint; rewrite Hr;
    destruct (mouse_left i && _); [rewrite Hc| |rewrite Hc|]; cbn [mbind res_bind]; by intros [= <-].
Qed.
End loop_theorems.


(** C16: Ctrl+S with a file name that cannot be written crashes the
    frame: [pygame.image.save] raises and nothing after it in the frame
    runs. *)
Theorem save_unwritable_raises `{Dialogs D} a d i fn d' es :
  ctrl_held (mods i) = true → events i = KEYDOWN K_s :: es → prompt_file d = (fn, d') →
  fn ≠ ""%string → file_writable d' fn = false → frame a d i = Err SaveError.
Proof.
  intros Hm Hev Hf Hfn Hw. unfold frame. rewrite Hev. cbn [handle_events handle_event].
  rewrite (bool_decide_false (K_s = K_q)) by done. rewrite bool_decide_true, Hm, Hf by done.
  cbn [andb]. by rewrite bool_decide_false, Hw.
Qed.

(** C25: the key and mouse dispatch of lines 198-215: [G] toggles the
    grid whatever modifiers are held (Ctrl+G included, as the [elif]
    chain tests Q and S first); without Ctrl every other key does
    nothing, Q and S included; a mouse button other than the left one
    does nothing. *)
Theorem key_dispatch m a d :
  handle_event m (a, d) (KEYDOWN K_g) = Ok (set_canvas a (toggle_grid (canvas a)), d) ∧
  (ctrl_held m = false → ∀ k, k ≠ K_g → handle_event m (a, d) (KEYDOWN k) = Ok (a, d)) ∧
  (∀ b pos, b ≠ BUTTON_LEFT → handle_event m (a, d) (MOUSEBUTTONDOWN b pos) = Ok (a, d)).
Proof.
  cbn [handle_event]. split_and!.
  - reflexivity.
  - intros Hc k Hk. rewrite Hc, !andb_false_r. by rewrite bool_decide_false.
  - intros b pos Hb. by rewrite bool_decide_false.
Qed.

(** C26: the whole program refines the picture contract: the canvas of
    every reachable state shows a picture that the contract's edits
    (recolouring a cell with a colour of the current palette, whitening
    every cell, toggling the grid) produce from the blank picture. *)
Theorem reachable_refines_picture d0 a d :
  reachable d0 (a, d) → rtc (Picture.edit (colors (palette a))) Picture.blank (abs (canvas a)).
Proof.
  intros Hr. rewrite <-abs_new_canvas.
  exact (proj2 (steps_picture _ _ Hr initial_app_wf)).
Qed.

(** ** Witnesses *)

Ltac app_wf_compute :=
  split_and!; [canvas_wf_compute | palette_wf_compute | reflexivity | intros ? ? ?%elem_of_nil; done].

Ltac app_inv_compute :=
  split; [app_wf_compute | unfold app_colours, palette_colours_valid, canvas_colours_valid; decide_colours].

Lemma reachable_wf_witness :
  ∃ a d, frame initial_app no_answers (click (890, 40)) = Ok (a, d) ∧
         reachable no_answers (a, d) ∧ app_wf a.
Proof.
  destruct (frame initial_app no_answers (click (890, 40))) as [[a d]|] eqn:E; [|refute_err E].
  assert (Hr : reachable no_answers (a, d)).
  { eapply rtc_l; [econstructor; [reflexivity | exact E] | apply rtc_refl]. }
  exists a, d. split_and!; [done | exact Hr | exact (reachable_wf _ _ _ Hr)].
Defined.

(** The user adds the colour (10, 20, 30), saves to a writable file and
    paints. *)
Lemma main_loop_never_fails_witness :
  let d := mkScript ["pic.png"%string] [Some (10, 20, 30)] [] [] in
  env_ok script_ok ∧ app_inv initial_app ∧ script_ok d ∧
  ∃ a' d', main_loop [click (826, 5); keys [K_s] KMOD_LCTRL; drag (5, 5)] initial_app d = Ok (a', d') ∧
    app_inv a' ∧ script_ok d'.
Proof.
  intros d. assert (Hi : app_inv initial_app) by app_inv_compute.
  assert (Hd : script_ok d).
  { split; constructor; [cbn; lia | constructor | set_solver | constructor]. }
  split_and!; [exact script_env_ok | exact Hi | exact Hd |].
  exact (main_loop_never_fails script_ok _ _ _ script_env_ok Hi Hd).
Defined.

(** The frame toggles the grid and then saves: the grid is on, but the
    written image is the surface of the previous frame, without it. *)
Lemma frame_saves_previous_render_witness :
  let d := mkScript ["grid.png"%string] [] [] [] in
  let i := keys [K_g; K_s] KMOD_LCTRL in
  (∃ a' d', frame initial_app d i = Ok (a', d') ∧
     ∃ l, saved a' = saved initial_app ++ l ∧ ∀ fn s, (fn, s) ∈ l → s = surf (canvas initial_app)) ∧
  match frame initial_app d i with
  | Ok (a', _) => show_grid (canvas a') = 1 ∧ length (saved a') = 1%nat ∧
      pixel (surf (canvas initial_app)) 0 5 = COLORS.WHITE
  | Err _ => False
  end.
Proof.
  intros d i. split; [|vm_compute; split_and!; reflexivity].
  destruct (frame initial_app d i) as [[a' d']|] eqn:E; [|refute_err E].
  exists a', d'. split; [done | exact (frame_saves_previous_render _ _ _ _ _ E)].
Defined.

Lemma quit_ends_loop_after_frame_witness :
  let i := mkFrameInput [QUIT; KEYDOWN K_s] KMOD_RCTRL false (0, 0) in
  let d := mkScript ["late.png"%string] [] [] [] in
  QUIT ∈ events i ∧
  main_loop [i; drag (5, 5)] initial_app d = frame initial_app d i ∧
  match frame initial_app d i with
  | Ok (a, _) => run a = false ∧ fst <$> saved a = ["late.png"%string]
  | Err _ => False
  end.
Proof.
  intros i d.
  assert (Hq : QUIT ∈ events i) by (left; done).
  split_and!; [exact Hq | exact (quit_ends_loop_after_frame initial_app d i _ Hq) |].
  vm_compute. split; reflexivity.
Defined.

Lemma frame_paint_witness :
  app_wf initial_app ∧ handle_events 0 [] (initial_app, no_answers) = Ok (initial_app, no_answers) ∧
  ∃ a' c, frame initial_app no_answers (drag (5, 5)) =
      (if bool_decide (app_colours a') then Ok (a', no_answers) else Err ValueError) ∧
    color (palette initial_app) = Ok c ∧ c ∈ colors (palette initial_app) ∧
    palette a' = palette initial_app ∧
    blocks (canvas a') = if mouse_left (drag (5, 5)) && bool_decide (in_canvas (mouse_pos (drag (5, 5))))
                         then blocks (paint (canvas initial_app) (mouse_pos (drag (5, 5))) c)
                         else blocks (canvas initial_app).
Proof.
  assert (Hwf : app_wf initial_app) by app_wf_compute.
  assert (He : handle_events 0 [] (initial_app, no_answers) = Ok (initial_app, no_answers)) by reflexivity.
  split_and!; [exact Hwf | exact He | exact (frame_paint initial_app no_answers (drag (5, 5)) _ _ Hwf He)].
Defined.

Lemma key_dispatch_witness :
  ctrl_held 1 = false ∧
  handle_event 1 (initial_app, no_answers) (KEYDOWN K_q) = Ok (initial_app, no_answers).
Proof.
  assert (Hc : ctrl_held 1 = false) by reflexivity. split; [exact Hc|].
  apply (proj1 (proj2 (key_dispatch 1 initial_app no_answers)) Hc). done.
Defined.

Lemma reachable_refines_picture_witness :
  ∃ a d, frame initial_app no_answers (drag (5, 5)) = Ok (a, d) ∧ reachable no_answers (a, d) ∧
    rtc (Picture.edit (colors (palette a))) Picture.blank (abs (canvas a)).
Proof.
  destruct (frame initial_app no_answers (drag (5, 5))) as [[a d]|] eqn:E; [|refute_err E].
  assert (Hr : reachable no_answers (a, d)) by (apply rtc_once; by econstructor).
  exists a, d. split_and!; [done|done|]. exact (reachable_refines_picture no_answers a d Hr).
Defined.


(** Ctrl+S names a read-only file. *)
Lemma save_unwritable_raises_witness :
  let d := mkScript ["ro.png"%string] [] [] ["ro.png"%string] in
  let i := keys [K_s] KMOD_LCTRL in
  ctrl_held (mods i) = true ∧ events i = [KEYDOWN K_s] ∧
  prompt_file d = ("ro.png"%string, mkScript [] [] [] ["ro.png"%string]) ∧ "ro.png"%string ≠ ""%string ∧
  file_writable (mkScript [] [] [] ["ro.png"%string]) "ro.png" = false ∧
  frame initial_app d i = Err SaveError.
Proof.
  intros d i. assert (Hm : ctrl_held (mods i) = true) by reflexivity.
  assert (Hev : events i = [KEYDOWN K_s]) by reflexivity.
  assert (Hf : prompt_file d = ("ro.png"%string, mkScript [] [] [] ["ro.png"%string])) by reflexivity.
  assert (Hn : "ro.png"%string ≠ ""%string) by done.
  assert (Hw : file_writable (mkScript [] [] [] ["ro.png"%string]) "ro.png" = false) by reflexivity.
  split_and!; [exact Hm | exact Hev | exact Hf | exact Hn | exact Hw |].
  exact (save_unwritable_raises initial_app d i _ _ [] Hm Hev Hf Hn Hw).
Defined.
