(* ===== verification/Window.v ===== *)
(** * The window: what a frame shows on the screen

    The program draws each frame on the window surface returned by
    [pygame.display.set_mode] (line 186): it fills it grey, draws the
    palette, then blits the canvas at the top-left corner (lines
    225-227), and [pygame.display.update] shows the result.  [App.render]
    keeps those calls in [display]; here they are run on the window with
    the semantics [Surface.draw_cmds].

    The theorems: the window shows the canvas surface exactly in its
    480x480 corner; inside the frame of every palette cell it shows the
    cell's colour, old duplicate blocks notwithstanding; the highlight
    frame of the selected block is visible when no later block shares its
    cell; and right after a colour is added the highlight is hidden,
    because the newly appended layout is drawn over it. *)

From stdpp Require Import relations.
From S2P Require Import Prelude Surface Dialogs Canvas Palette App Session.

Local Open Scope Z_scope.

(** [screen = pygame.display.set_mode((window_width, window_height))] *)
Definition set_mode : Surface := new_surface window_width window_height.

(** [(x, y)] lies in [r] off its one-pixel frame. *)
Definition inside_frame (r : Rect) (p : point) : Prop :=
  rx r < p.1 < rx r + rw r - 1 ∧ ry r < p.2 < ry r + rh r - 1.

(** ** Lemmas *)

(** Proves that a call leaves a pixel alone, by arithmetic on its box. *)
Ltac keep_tac :=
  unfold cmd_effect, line_box, collidepoint, palette_rect, rcenterx, rcentery, rleft, rtop, rright, rbottom, SIZE in *;
  cbn [fst snd rx ry rw rh] in *;
  repeat (case_bool_decide; cbn [andb orb]; try divlia); try done.

Lemma render_display a :
  display (render a) = [Fill (63, 63, 63)] ++ draw (palette a) ++ [Blit (surf (update (canvas a))) (0, 0)].
Proof. done. Qed.

(** A window pixel is the colour [cmds_pixel] finds for it. *)
Lemma window_pixel s cmds s' x y c :
  sw s = window_width → sh s = window_height → draw_cmds s cmds s' →
  0 <= x < window_width → 0 <= y < window_height →
  cmds_pixel cmds x y None = Some c → pixel s' x y = c.
Proof.
  intros Hw Hh Hd Hx Hy Hc. pose proof (draw_cmds_pixel s cmds s' x y None Hd) as Hp.
  rewrite Hc in Hp. apply Hp; [|done]. apply in_bounds_spec. lia.
Qed.

(** Below the first row the buttons leave every pixel alone. *)
Lemma buttons_keep p x y :
  palette_wf p → SIZE <= y →
  Forall (λ cmd, cmd_effect cmd x y = Keep) (PickerButton_draw (button_add p) ++ ClearButton_draw (button_clear p)).
Proof.
  intros (-> & -> & _) Hy. unfold PickerButton_draw, ClearButton_draw. cbn [app].
  repeat constructor; keep_tac.
Qed.

(** Right of the canvas the blit leaves every pixel alone. *)
Lemma blit_keep cv x y :
  canvas_wf cv → N * SIZE <= x → cmd_effect (Blit (surf (update cv)) (0, 0)) x y = Keep.
Proof.
  intros Hwf Hx. destruct (update_wf cv Hwf) as (Hw & Hh & _). unfold get_width, get_height in *.
  cbn [cmd_effect fst snd]. unfold in_bounds. rewrite Hw. by rewrite (bool_decide_false (0 <= x - 0 < _)) by lia.
Qed.

Lemma inside_frame_collide r p : inside_frame r p → collidepoint r p = true.
Proof. destruct p. intros [??]. collide_arith. lia. Qed.

(** A point inside the frame of palette cell [j] is in no other cell,
    and no one-pixel frame drawn around a cell touches it. *)
Lemma cell_frame_effects off j j' col x y :
  inside_frame (palette_rect off j) (x, y) →
  (collidepoint (palette_rect off j') (x, y) = true → j' = j) ∧
  cmd_effect (DrawRect col (palette_rect off j') 1) x y = Keep.
Proof.
  intros Hin. assert (Hu : collidepoint (palette_rect off j') (x, y) = true → j' = j).
  { intros H. apply (palette_rect_unique off j' j (x, y)); [done|by apply inside_frame_collide]. }
  split; [done|]. destruct (collidepoint (palette_rect off j') (x, y)) eqn:E.
  - rewrite (Hu eq_refl). unfold inside_frame in Hin. keep_tac.
  - cbn [cmd_effect]. by rewrite E.
Qed.

(** Inside the frame of cell [j], every palette call keeps the pixel or
    paints colour [j], and some block paints it. *)
Lemma draw_cell_effects p j c x y :
  palette_wf p → colors p !! j = Some c → inside_frame (palette_rect (offset p) j) (x, y) →
  Forall (λ cmd, cmd_effect cmd x y = Keep ∨ cmd_effect cmd x y = Paint c) (draw p) ∧
  Exists (λ cmd, cmd_effect cmd x y = Paint c) (draw p).
Proof.
  intros Hwf Hj Hin. pose proof (inside_frame_collide _ _ Hin) as Hcol. unfold draw. split.
  - apply Forall_app. split.
    + apply Forall_concat_imap. intros i b Hb.
      destruct (palette_wf_blocks p i b Hwf Hb) as (j' & c' & -> & Hj').
      destruct (cell_frame_effects (offset p) j j' (color_selected p) x y Hin) as [Hu Hfr].
      constructor.
      * cbn [cmd_effect brect bcolor]. rewrite bool_decide_true by done.
        destruct (collidepoint (palette_rect (offset p) j') (x, y)) eqn:E; [|by left].
        rewrite (Hu eq_refl) in Hj'. right. congruence.
      * case_bool_decide; constructor; [by left|constructor].
    + apply Forall_impl with (P := λ cmd, cmd_effect cmd x y = Keep); [|by left].
      apply buttons_keep; [done|]. apply palette_rect_below in Hcol. done.
  - apply Exists_app. left. destruct Hwf as (_ & _ & _ & (pre & Hpb & _) & _).
    apply (Exists_concat_imap _ _ _ (length pre + j)%nat (mkBlock (palette_rect (offset p) j) c)).
    + rewrite Hpb, lookup_app_r, layout_lookup by lia. rewrite Nat.add_comm, Nat.add_sub, Hj. done.
    + apply Exists_cons. left. cbn [cmd_effect brect bcolor]. rewrite bool_decide_true, Hcol by done. done.
Qed.

(** ** The canvas in the window *)

(** C30: the blit comes last, so in a frame drawn from a well-formed state
    the window's top-left 480x480 square shows exactly the canvas surface
    just redrawn by [update], whatever the palette drew and whatever the
    window showed before. *)
Theorem window_shows_canvas a s s' x y :
  app_wf a → sw s = window_width → sh s = window_height →
  draw_cmds s (display (render a)) s' →
  0 <= x < N * SIZE → 0 <= y < N * SIZE →
  pixel s' x y = pixel (surf (canvas (render a))) x y.
Proof.
  intros (Hc & _) Hw Hh Hd Hx Hy. destruct (update_wf _ Hc) as (Hw' & Hh' & _).
  unfold get_width, get_height in *.
  apply (window_pixel s _ s' x y _ Hw Hh Hd); [unfold window_width, window_height, N, SIZE in *; lia..|].
  rewrite render_display, !cmds_pixel_app. cbn [cmds_pixel fold_left cmd_effect apply_effect fst snd].
  rewrite !Z.sub_0_r. unfold in_bounds. rewrite Hw', Hh', !bool_decide_true by lia. done.
Qed.

(** ** The palette in the window *)

(** C31: inside the frame of palette cell [j] (and inside the window),
    a frame drawn from a well-formed state whose palette lies right of
    the canvas shows colour [j] of [colors]: the old duplicate blocks
    [add_color] leaves behind all show, at each place, the colour of
    that place. *)
Theorem window_shows_palette a s s' j c x y :
  app_wf a → N * SIZE <= offset (palette a) → sw s = window_width → sh s = window_height →
  draw_cmds s (display (render a)) s' →
  colors (palette a) !! j = Some c → inside_frame (palette_rect (offset (palette a)) j) (x, y) →
  x < window_width → y < window_height →
  pixel s' x y = c.
Proof.
  intros (Hc & Hp & _) Hoff Hw Hh Hd Hj Hin Hx Hy.
  destruct (draw_cell_effects _ _ _ _ _ Hp Hj Hin) as [Hall Hex].
  pose proof Hin as [Hx' Hy']. unfold palette_rect in Hx', Hy'. cbn [rx ry fst snd] in Hx', Hy'.
  apply (window_pixel s _ s' x y _ Hw Hh Hd); [unfold N, SIZE in *; divlia..|].
  rewrite render_display, !cmds_pixel_app, (cmds_pixel_paint (draw (palette a)) x y c) by done.
  unfold cmds_pixel. cbn [fold_left]. rewrite blit_keep by (done || (unfold N, SIZE in *; divlia)). done.
Qed.

(** C32: the highlight frame is visible when the selected block is the
    last block at its place: then the window shows [color_selected] at the
    top-left pixel of that block (inside the window), the pixel the frame
    [pygame.draw.rect(screen, self.color_selected, block, 1)] paints. *)
Theorem window_highlight_visible a s s' b :
  app_wf a → N * SIZE <= offset (palette a) → sw s = window_width → sh s = window_height →
  draw_cmds s (display (render a)) s' →
  pblocks (palette a) !! selected (palette a) = Some b →
  (∀ k b', (selected (palette a) < k)%nat → pblocks (palette a) !! k = Some b' → brect b' ≠ brect b) →
  rx (brect b) < window_width → ry (brect b) < window_height →
  pixel s' (rx (brect b)) (ry (brect b)) = color_selected (palette a).
Proof.
  intros (Hc & Hp & _) Hoff Hw Hh Hd Hb Hlater Hx Hy.
  destruct (palette_wf_blocks _ _ b Hp Hb) as (j & c & -> & Hj). cbn [brect bcolor] in *.
  set (r := palette_rect (offset (palette a)) j) in *.
  assert (Hcorner : collidepoint r (rx r, ry r) = true) by (unfold r, palette_rect, SIZE; collide_arith; lia).
  assert (Hin : 0 <= rx r ∧ SIZE <= ry r) by (unfold r, palette_rect, N, SIZE in *; cbn; divlia).
  apply (window_pixel s _ s' _ _ _ Hw Hh Hd); [unfold SIZE in *; lia..|].
  assert (Hblit : cmd_effect (Blit (surf (update (canvas a))) (0, 0)) (rx r) (ry r) = Keep).
  { apply blit_keep; [done|]. unfold r, palette_rect, N, SIZE in *. cbn. divlia. }
  assert (Hbut : Forall (λ cmd, cmd_effect cmd (rx r) (ry r) = Keep)
                   (PickerButton_draw (button_add (palette a)) ++ ClearButton_draw (button_clear (palette a))))
    by (apply buttons_keep; [done|lia]).
  apply Forall_app in Hbut as [Hpick Hclr].
  rewrite render_display. unfold draw.
  rewrite <-(take_drop_middle (pblocks (palette a)) (selected (palette a)) _ Hb), imap_app, imap_cons.
  rewrite length_take_le, Nat.add_0_r, bool_decide_true by (done || (apply lookup_lt_Some in Hb; lia)).
  rewrite concat_app. cbn [concat].
  assert (Hmid : ∀ acc, cmds_pixel [DrawRect c r 0; DrawRect (color_selected (palette a)) r 1] (rx r) (ry r) acc
                       = Some (color_selected (palette a))).
  { intros acc. unfold cmds_pixel. cbn [fold_left].
    rewrite !rect_corner_paint by (unfold r; cbn; unfold SIZE; lia). done. }
  rewrite !cmds_pixel_app. cbn [brect bcolor]. rewrite Hmid.
  rewrite (cmds_pixel_keep [Blit _ _]) by by constructor.
  rewrite (cmds_pixel_keep _ _ _ _ Hclr), (cmds_pixel_keep _ _ _ _ Hpick), cmds_pixel_keep; [done|].
  apply Forall_concat_imap. intros k b' Hk. rewrite lookup_drop in Hk.
  destruct (palette_wf_blocks _ _ b' Hp Hk) as (j' & c' & Eb' & _).
  assert (Hmiss : collidepoint (brect b') (rx r, ry r) = false).
  { apply not_true_iff_false. intros Hhit. apply (Hlater (S (selected (palette a)) + k)%nat b' ltac:(lia) Hk).
    rewrite Eb' in *. cbn in *. by rewrite (palette_rect_unique _ j' j _ Hhit Hcorner). }
  cbn [compose]. constructor; [by apply rect_miss_keep|]. case_bool_decide; repeat constructor. by apply rect_miss_keep.
Qed.

(** C33: right after a colour is added, the highlight is hidden.  With
    the first entry selected, the frame of a plain drag shows the
    highlight colour at the top-left pixel of the first palette cell;
    the frame in which the user adds a colour keeps [selected = 0], but
    [add_color] appends a new layout whose first block (red) is drawn
    over the framed old block, so that pixel shows red. *)
Theorem highlight_hidden_after_add_color :
  match frame initial_app no_answers (drag (900, 300)),
        frame initial_app add_colour_script (click (829, 5)) with
  | Ok (a0, _), Ok (a1, _) =>
      selected (palette a0) = 0%nat ∧ selected (palette a1) = 0%nat ∧
      (∀ s s', sw s = window_width → sh s = window_height → draw_cmds s (display a0) s' →
               pixel s' 824 32 = (255, 213, 0)) ∧
      (∀ s s', sw s = window_width → sh s = window_height → draw_cmds s (display a1) s' →
               pixel s' 824 32 = COLORS.RED)
  | _, _ => False
  end.
Proof.
  assert (H0 : match frame initial_app no_answers (drag (900, 300)) with
               | Ok (a, _) => (selected (palette a), cmds_pixel (display a) 824 32 None)
               | Err _ => (1%nat, None) end = (0%nat, Some (255, 213, 0))) by (vm_compute; reflexivity).
  assert (H1 : match frame initial_app add_colour_script (click (829, 5)) with
               | Ok (a, _) => (selected (palette a), cmds_pixel (display a) 824 32 None)
               | Err _ => (1%nat, None) end = (0%nat, Some COLORS.RED)) by (vm_compute; reflexivity).
  destruct (frame initial_app no_answers _) as [[a0 d0]|]; [|done].
  destruct (frame initial_app add_colour_script _) as [[a1 d1]|]; [|done].
  injection H0 as -> P0. injection H1 as -> P1.
  split_and!; [done|done|..]; intros s s' Hw Hh Hd;
    (eapply window_pixel; [exact Hw|exact Hh|exact Hd|unfold window_width, window_height; lia..|done]).
Qed.

(** ** Witnesses *)

Lemma window_shows_canvas_witness :
  app_wf blue_app ∧ ∃ s', draw_cmds set_mode (display (render blue_app)) s' ∧
    pixel s' 100 100 = pixel (surf (canvas (render blue_app))) 100 100.
Proof.
  assert (Hwf : app_wf blue_app) by app_wf_compute. split; [exact Hwf|].
  destruct (draw_cmds_exists set_mode (display (render blue_app))) as [s' Hd].
  exists s'. split; [exact Hd|]. apply (window_shows_canvas blue_app set_mode); [exact Hwf|done|done|exact Hd|..];
    unfold N, SIZE; lia.
Defined.

Lemma window_shows_palette_witness :
  app_wf blue_app ∧ ∃ s', draw_cmds set_mode (display (render blue_app)) s' ∧ pixel s' 840 48 = COLORS.BLUE.
Proof.
  assert (Hwf : app_wf blue_app) by app_wf_compute. split; [exact Hwf|].
  destruct (draw_cmds_exists set_mode (display (render blue_app))) as [s' Hd].
  exists s'. split; [exact Hd|].
  apply (window_shows_palette blue_app set_mode s' 0); [exact Hwf|vm_compute; done|done|done|exact Hd|done|..];
    [vm_compute; split; split; done..|vm_compute; done|vm_compute; done].
Defined.

Lemma window_highlight_visible_witness :
  app_wf blue_app ∧ ∃ s', draw_cmds set_mode (display (render blue_app)) s' ∧ pixel s' 824 32 = (255, 213, 0).
Proof.
  assert (Hwf : app_wf blue_app) by app_wf_compute. split; [exact Hwf|].
  destruct (draw_cmds_exists set_mode (display (render blue_app))) as [s' Hd].
  exists s'. split; [exact Hd|].
  apply (window_highlight_visible blue_app set_mode s' (mkBlock (palette_rect 824 0) COLORS.BLUE));
    [exact Hwf|vm_compute; done|done|done|exact Hd|vm_compute; reflexivity| |vm_compute; done|vm_compute; done].
  intros k b' Hk Hb'. exfalso. revert Hb'. cbn. destruct k as [|[|k]]; [lia|done|done].
Defined.

Lemma highlight_hidden_after_add_color_witness :
  match frame initial_app add_colour_script (click (829, 5)) with
  | Ok (a1, _) => ∃ s', draw_cmds set_mode (display a1) s' ∧ pixel s' 824 32 = COLORS.RED
  | Err _ => False
  end.
Proof.
  pose proof highlight_hidden_after_add_color as H.
  destruct (frame initial_app no_answers _) as [[a0 d0]|]; [|done].
  destruct (frame initial_app add_colour_script _) as [[a1 d1]|]; [|done].
  destruct H as (_ & _ & _ & H). destruct (draw_cmds_exists set_mode (display a1)) as [s' Hd].
  exists s'. split; [exact Hd|]. by apply (H set_mode).
Defined.
